(** * Keyword dialog of the CAE pre-processor: generation of INP code

    A shallow embedding of [src/gui/dialog.py]: the widget classes that
    visualise the arguments of a keyword ([Group], [Box], [Or], [Combo],
    [Text], [Line], [Bool], [SelectFileWidget]), the construction of a
    fresh dialog ([build_widgets]), the regeneration of the INP code after
    every signal ([change]), the check of required fields ([accept]) and
    the result of the dialog ([ok]).

    Python strings are modelled as [string] (code points below 256), the
    Qt controls by the part of their state that the module reads back. *)

From Stdlib Require Import String Ascii List Bool ZArith Lia.
Import ListNotations.

Open Scope list_scope.
Open Scope string_scope.
#[local] Set Warnings "-register-all".

(** ** Python string operations used by the module *)

Module Py.

Definition LF : ascii := "010"%char.
Definition comma : ascii := ","%char.

(** [s.startswith(p)] *)
Definition startswith (s p : string) : bool := String.prefix p s.

(** [s.endswith(p)] *)
Fixpoint endswith (s p : string) : bool :=
  (s =? p) ||
  match s with
  | EmptyString => false
  | String _ s' => endswith s' p
  end.

(** [s[n:]] *)
Fixpoint slice_from (n : nat) (s : string) : string :=
  match n, s with
  | O, _ => s
  | S n', String _ s' => slice_from n' s'
  | S _, EmptyString => EmptyString
  end.

(** [c in s] for a one-character [c] *)
Fixpoint contains (c : ascii) (s : string) : bool :=
  match s with
  | EmptyString => false
  | String d s' => Ascii.eqb c d || contains c s'
  end.

(** [s.split(c)] for a one-character separator: the pieces between the
    occurrences of [c]; never the empty list. *)
Fixpoint split (c : ascii) (s : string) : list string :=
  match s with
  | EmptyString => [EmptyString]
  | String d s' =>
      if Ascii.eqb d c then EmptyString :: split c s'
      else match split c s' with
           | [] => [String d EmptyString]
           | p :: ps => String d p :: ps
           end
  end.

(** [s.split(sep)] for the two-character separator [c1 c2]. *)
Fixpoint split2 (c1 c2 : ascii) (s : string) : list string :=
  match s with
  | EmptyString => [EmptyString]
  | String d s' =>
      let cons_char := match split2 c1 c2 s' with
                       | [] => [String d EmptyString]
                       | p :: ps => String d p :: ps
                       end in
      match s' with
      | String e s'' =>
          if Ascii.eqb d c1 && Ascii.eqb e c2
          then EmptyString :: split2 c1 c2 s''
          else cons_char
      | EmptyString => cons_char
      end
  end.

(** [c.isspace()] on code points below 256. *)
Definition isspace (c : ascii) : bool :=
  let n := nat_of_ascii c in
  (((9 <=? n) && (n <=? 13)) || ((28 <=? n) && (n <=? 32))
  || (n =? 133) || (n =? 160))%nat.

Fixpoint lstrip (s : string) : string :=
  match s with
  | EmptyString => EmptyString
  | String c s' => if isspace c then lstrip s' else s
  end.

Fixpoint rstrip (s : string) : string :=
  match s with
  | EmptyString => EmptyString
  | String c s' =>
      match rstrip s' with
      | EmptyString => if isspace c then EmptyString else String c EmptyString
      | r => String c r
      end
  end.

(** [s.strip()] *)
Definition strip (s : string) : string := rstrip (lstrip s).

(** [sep.join(l)] for a one-character [sep] *)
Fixpoint join (sep : ascii) (l : list string) : string :=
  match l with
  | [] => EmptyString
  | [x] => x
  | x :: r => x ++ String sep (join sep r)
  end.

(** [s.replace(c, d)] for one-character [c] and [d] *)
Fixpoint replace (c d : ascii) (s : string) : string :=
  match s with
  | EmptyString => EmptyString
  | String e s' => String (if Ascii.eqb e c then d else e) (replace c d s')
  end.

(** [s.replace(c, '')] for a one-character [c] *)
Fixpoint remove (c : ascii) (s : string) : string :=
  match s with
  | EmptyString => EmptyString
  | String e s' => if Ascii.eqb e c then remove c s' else String e (remove c s')
  end.

(** [re.sub(r'[ -]', '_', s)]: every space and every hyphen becomes an
    underscore. *)
Fixpoint sub_space_hyphen (s : string) : string :=
  match s with
  | EmptyString => EmptyString
  | String e s' =>
      String (if Ascii.eqb e " " || Ascii.eqb e "-" then "_"%char else e)
        (sub_space_hyphen s')
  end.

(** [c.lower()] on code points below 256: the letters A to Z and the
    capital letters of Latin-1. *)
Definition lower_char (c : ascii) : ascii :=
  let n := nat_of_ascii c in
  if (((65 <=? n) && (n <=? 90))
      || ((192 <=? n) && (n <=? 222) && negb (n =? 215)))%nat
  then ascii_of_nat (n + 32) else c.

(** [s.lower()] *)
Fixpoint lower (s : string) : string :=
  match s with
  | EmptyString => EmptyString
  | String c s' => String (lower_char c) (lower s')
  end.

(** [posixpath.join(a, b)] *)
Definition path_join (a b : string) : string :=
  if startswith b "/" then b
  else if (a =? "") || endswith a "/" then a ++ b
  else a ++ String "/" b.

End Py.

(** An exception raised by the Python code is modelled by [None]. *)
Notation "x <- e ;; k" :=
  (match e with Some x => k | None => None end)
  (at level 61, e at next level, right associativity).

(** ** Qt controls

    Only the state that the module reads back is kept. *)

(** A [QComboBox]: its items and the current index ([-1]: no item). *)
Record QComboBox := mkQComboBox {
  items : list string;
  currentIndex : Z
}.

Definition currentText (c : QComboBox) : string :=
  if (currentIndex c <? 0)%Z then ""
  else nth (Z.to_nat (currentIndex c)) (items c) "".

(** [addItem]/[addItems]: the first item added becomes the current one. *)
Definition addItems (l : list string) (c : QComboBox) : QComboBox :=
  match l with
  | [] => c
  | _ => mkQComboBox (items c ++ l)%list
           (if (currentIndex c <? 0)%Z then 0%Z else currentIndex c)
  end.

Definition new_QComboBox : QComboBox := mkQComboBox [] (-1)%Z.

(** [self.label] of an [ArgumentWidget]: a [QLabel] with the name, or a
    [QComboBox] with the alternatives of a name such as
    [FREQUENCY|TIME POINTS] ([self.label.text = self.label.currentText]). *)
Inductive Label :=
| QLabel (text : string)
| QComboLabel (c : QComboBox).

Definition label_text (l : Label) : string :=
  match l with
  | QLabel t => t
  | QComboLabel c => currentText c
  end.

(** ** Widgets *)

(** The attributes every [ArgumentWidget] sets in [__init__], and the
    enabled flag of its control [self.w].  No code path disables the
    [ArgumentWidget] itself: its [setEnabled] is overridden and forwards to
    the inner controls. *)
Record ArgumentWidget := mkArgumentWidget {
  self_name : string;
  self_required : bool;
  self_newline : bool;
  self_readonly : bool;
  self_label : option Label;
  w_enabled : bool
}.

(** One constructor per widget class ([HBox]/[VBox] differ from [Box],
    [HOr]/[VOr] from [Or], and [Int]/[Float] from [Line], only in layout and
    input validators).  [enabled] is the widget's own Qt flag, [checked] the
    state of the group box or check box, [rb] the radio buttons of an [Or],
    one per alternative. *)
Inductive Widget :=
| Group (argument_name : string) (enabled : bool) (checked : bool)
| Box (newline : bool) (enabled : bool)
| Or (newline : bool) (enabled : bool) (rb : list bool)
| Combo (self : ArgumentWidget) (w : QComboBox)
| Text (self : ArgumentWidget) (toPlainText : string)
| Line (self : ArgumentWidget) (text : string)
| Bool (self : ArgumentWidget) (checked : bool)
| SelectFileWidget (self : ArgumentWidget) (text : string).

(** Modelled from the spec: class [Argument] of [model.kom], which is not
    part of the sources.  It carries what the dialog reads: [name], [form]
    (the name of the widget class), [use] (the keyword whose implementations
    are offered), [value], [comment], the flags returned by [get_required],
    [get_newline] and [get_readonly], the nested arguments returned by
    [get_arguments], and the attribute [widget] that [build_widgets]
    assigns. *)
Inductive Argument := mkArgument {
  name : string;
  form : string;
  use : string;
  value : string;
  comment : string;
  required : bool;
  newline : bool;
  readonly : bool;
  widget : option Widget;
  arguments : list Argument
}.

(** Modelled from the spec: [ItemType] of [model.kom]; the dialog
    distinguishes keywords from implementations. *)
Inductive ItemType := KEYWORD | IMPLEMENTATION.

(** The item the dialog was opened for (the global [ITEM]). *)
Record Item := mkItem {
  itype : ItemType;
  item_name : string;
  get_arguments : list Argument
}.

(** ** Enabled state

    Qt: a widget is enabled when its own flag is set and its parent is
    enabled; the children of a checkable [QGroupBox] are disabled while it
    is unchecked.  [pe] is the enabled state of the parent widget. *)

(** [a.widget.isEnabled()] *)
Definition isEnabled (pe : bool) (w : Widget) : bool :=
  match w with
  | Group _ en _ | Box _ en | Or _ en _ => pe && en
  | Combo _ _ | Text _ _ | Line _ _ | Bool _ _ | SelectFileWidget _ _ => pe
  end.

(** Enabled state seen by the widgets of the nested arguments: they live
    in [self.gbox] for a [Group], in the widget itself otherwise. *)
Definition children_enabled (pe : bool) (w : Widget) : bool :=
  match w with
  | Group _ _ ck => isEnabled pe w && ck
  | _ => isEnabled pe w
  end.

(** ** The [text] methods *)

(** [ArgumentWidget.text]; [ct] is the text of [self.w] ([currentText],
    [toPlainText] or [text], whichever the control has), [self_enabled]
    is [self.isEnabled()]. *)
Definition ArgumentWidget_text (self_enabled : bool) (self : ArgumentWidget)
    (ct : string) : string :=
  if negb (self_enabled && w_enabled self) then ""
  else if negb self_enabled then ""
  else
    let newline := if self_newline self then String Py.LF "" else ", " in
    if negb (ct =? "") && negb (Py.startswith ct "!!! Create *") then
      if negb (self_name self =? "") then newline ++ self_name self ++ "=" ++ ct
      else newline ++ ct
    else "".

(** [Bool.text]; [self.label] is [None] for an argument without name, and
    [None.text()] raises. *)
Definition Bool_text (self_enabled : bool) (self : ArgumentWidget)
    (checked : bool) : option string :=
  if (self_enabled && w_enabled self) && checked then
    match self_label self with
    | Some l => Some (", " ++ label_text l)
    | None => None
    end
  else Some "".

(** [w.text()], dispatched on the class of [w].  [SelectFileWidget] sets
    [self.text = self.w.text], the text of its line edit as it is. *)
Definition text (self_enabled : bool) (w : Widget) : option string :=
  match w with
  | Group nm _ ck => Some (if self_enabled && ck then ", " ++ nm else "")
  | Box nl _ | Or nl _ _ => Some (if nl then String Py.LF "" else "")
  | Combo self c => Some (ArgumentWidget_text self_enabled self (currentText c))
  | Text self t => Some (ArgumentWidget_text self_enabled self t)
  | Line self t => Some (ArgumentWidget_text self_enabled self t)
  | Bool self ck => Bool_text self_enabled self ck
  | SelectFileWidget _ t => Some t
  end.

(** ** [change]: regenerate the INP code *)

(** One iteration of the loop of [change]: the value of the widget is
    appended to the text read from the text edit, without its leading
    [", "] after a line break.  This is the text [TEXTEDIT.setText] is
    given; a [QTextEdit] keeps it when it is plain (see [QTextEdit_setText]
    below). *)
Definition append_value (old_value new_value : string) : string :=
  let new_value :=
    if Py.endswith old_value (String Py.LF "") && Py.startswith new_value ", "
    then Py.slice_from 2 new_value else new_value in
  old_value ++ new_value.

(** The loop body for one argument followed by the recursive call
    [change(data, args, append=True)]; [TEXTEDIT] is the content of the text
    edit, threaded through. *)
Fixpoint change_argument (pe : bool) (a : Argument) (TEXTEDIT : string)
    {struct a} : option string :=
  match widget a with
  | None => Some TEXTEDIT
  | Some w =>
      new_value <- (if isEnabled pe w then text (isEnabled pe w) w
                    else Some "") ;;
      (fix loop (l : list Argument) (T : string) : option string :=
         match l with
         | [] => Some T
         | x :: r => T' <- change_argument (children_enabled pe w) x T ;;
                     loop r T'
         end) (arguments a) (append_value TEXTEDIT new_value)
  end.

(** [for a in arguments: ...] *)
Fixpoint change_arguments (pe : bool) (l : list Argument) (TEXTEDIT : string)
    : option string :=
  match l with
  | [] => Some TEXTEDIT
  | x :: r => T' <- change_argument pe x TEXTEDIT ;; change_arguments pe r T'
  end.

(** [change(data, arguments=[], append=False)] on the globals [ITEM] and
    [TEXTEDIT]: the new content of the text edit.  The widgets of the
    keyword's own arguments sit in the dialog, which is enabled.  The text
    edit is taken to keep each text it is given, as it does with plain
    texts; [change_rendered] below is the same slot without this
    assumption. *)
Definition change (ITEM : Item) (arguments : list Argument) (append : bool)
    (TEXTEDIT : string) : option string :=
  match itype ITEM with
  | IMPLEMENTATION => Some ""
  | KEYWORD =>
      let TEXTEDIT := if negb append then item_name ITEM else TEXTEDIT in
      let arguments :=
        match arguments with
        | [] => if negb append then get_arguments ITEM else arguments
        | _ => arguments
        end in
      change_arguments true arguments TEXTEDIT
  end.

(** [KeywordDialog.ok] *)
Definition ok (TEXTEDIT : string) : list string :=
  Py.split Py.LF (Py.strip TEXTEDIT).

(** ** Implementations of keywords *)

(** Modelled from the spec: an implementation of a keyword ([model.kom],
    not part of the sources): its keyword, its name and its INP code. *)
Record Implementation := mkImplementation {
  keyword : string;
  impl_name : string;
  inp_code : list string
}.

(** Modelled from the spec: the index of implementations behind
    [KWT.get_implementations], a mapping from the keyword name to its
    implementations in the order of registration. *)
Definition ImplementationIndex := list (string * list Implementation).

Fixpoint get_implementations (KWT : ImplementationIndex) (k : string)
    : list Implementation :=
  match KWT with
  | [] => []
  | (k', l) :: r => if k' =? k then l else get_implementations r k
  end.

Fixpoint register (impl : Implementation) (KWT : ImplementationIndex)
    : ImplementationIndex :=
  match KWT with
  | [] => [(keyword impl, [impl])]
  | (k, l) :: r =>
      if k =? keyword impl then (k, (l ++ [impl])%list) :: r
      else (k, l) :: register impl r
  end.

(** ** Construction of the widgets *)

Definition set_widget (w : option Widget) (a : Argument) : Argument :=
  mkArgument (name a) (form a) (use a) (value a) (comment a) (required a)
    (newline a) (readonly a) w (arguments a).

Definition set_arguments (l : list Argument) (a : Argument) : Argument :=
  mkArgument (name a) (form a) (use a) (value a) (comment a) (required a)
    (newline a) (readonly a) (widget a) l.

Definition set_w_enabled (status : bool) (self : ArgumentWidget)
    : ArgumentWidget :=
  mkArgumentWidget (self_name self) (self_required self) (self_newline self)
    (self_readonly self) (self_label self) status.

(** [w.setEnabled(status)]: [QWidget.setEnabled] for the groups; for an
    [ArgumentWidget] the override, which forwards to the inner controls
    ([Text] and [Line] rebind it to [self.w.setEnabled]). *)
Definition setEnabled (status : bool) (w : Widget) : Widget :=
  match w with
  | Group nm _ ck => Group nm status ck
  | Box nl _ => Box nl status
  | Or nl _ rb => Or nl status rb
  | Combo self c => Combo (set_w_enabled status self) c
  | Text self t => Text (set_w_enabled status self) t
  | Line self t => Line (set_w_enabled status self) t
  | Bool self ck => Bool (set_w_enabled status self) ck
  | SelectFileWidget self t => SelectFileWidget (set_w_enabled status self) t
  end.

(** [a.widget.setEnabled(status)] *)
Definition widget_setEnabled (status : bool) (a : Argument) : Argument :=
  set_widget (option_map (setEnabled status) (widget a)) a.

(** The classes [eval(form)] can build from one argument. *)
Inductive WidgetClass :=
| cls_Group | cls_HBox | cls_VBox | cls_HOr | cls_VOr | cls_Combo
| cls_Text | cls_Line | cls_Int | cls_Float | cls_Bool
| cls_SelectFileWidget.

(** [eval(form)] for the forms of a grammar, which are names of widget
    classes: the class of that name.  Any other string is taken to fail
    ([None]); Python would evaluate it as an expression, which may still
    give one of the classes. *)
Definition eval (form : string) : option WidgetClass :=
  if form =? "Group" then Some cls_Group
  else if form =? "HBox" then Some cls_HBox
  else if form =? "VBox" then Some cls_VBox
  else if form =? "HOr" then Some cls_HOr
  else if form =? "VOr" then Some cls_VOr
  else if form =? "Combo" then Some cls_Combo
  else if form =? "Text" then Some cls_Text
  else if form =? "Line" then Some cls_Line
  else if form =? "Int" then Some cls_Int
  else if form =? "Float" then Some cls_Float
  else if form =? "Bool" then Some cls_Bool
  else if form =? "SelectFileWidget" then Some cls_SelectFileWidget
  else None.

(** The attributes set by [ArgumentWidget.__init__]. *)
Definition ArgumentWidget_init (a : Argument) : ArgumentWidget :=
  mkArgumentWidget (name a) (required a) (newline a) (readonly a)
    (if Py.contains "|"%char (name a)
     then Some (QComboLabel (addItems (Py.split "|"%char (name a))
                               new_QComboBox))
     else if negb (name a =? "") then Some (QLabel (name a))
     else None)
    true.

(** The combo box built by [Combo.__init__]. *)
Definition Combo_items (KWT : ImplementationIndex) (a : Argument)
    : QComboBox :=
  let w := new_QComboBox in
  let w :=
    if negb (use a =? "") then
      let implementations := map impl_name (get_implementations KWT (use a)) in
      let w := addItems [""] w in
      match implementations with
      | [] => addItems ["!!! Create " ++ use a ++ " first !!!"] w
      | _ => addItems implementations w
      end
    else w in
  if negb (value a =? "") then addItems (Py.split "|"%char (value a)) w
  else w.

(** [QTextEdit.append] of a line the text edit takes as plain text: a
    new paragraph, unless the document is empty. *)
Definition QTextEdit_append (doc line : string) : string :=
  if doc =? "" then line else doc ++ String Py.LF line.

(** [Text.setText]: the lines of the value, separated in the grammar by a
    backslash and the letter n. *)
Definition Text_setText (text : string) : string :=
  fold_left QTextEdit_append (Py.split2 "\"%char "n"%char text) "".

(** The selection of the widget class in the loop of [build_widgets]; the
    variable [form] keeps its value from one iteration to the next. *)
Definition select_form (form_var : option string) (a : Argument)
    : option string :=
  let form_var := if negb (form a =? "") then Some (form a) else form_var in
  if negb (use a =? "") then Some "Combo" else form_var.

(** [cls(a)]: the argument with its widget, and the widgets of its nested
    arguments, assigned. *)
Fixpoint construct (KWT : ImplementationIndex) (cls : WidgetClass)
    (a : Argument) {struct a} : option Argument :=
  let build_widgets :=
    fix loop (form_var : option string) (l : list Argument)
        : option (list Argument) :=
      match l with
      | [] => Some []
      | x :: r =>
          f <- select_form form_var x ;;
          c <- eval f ;;
          x' <- construct KWT c x ;;
          r' <- loop (select_form form_var x) r ;;
          Some (x' :: r')
      end in
  let build_alternatives :=
    fix each (first : bool) (l : list Argument) : option (list Argument) :=
      match l with
      | [] => Some []
      | x :: r =>
          f <- select_form None x ;;
          c <- eval f ;;
          x' <- construct KWT c x ;;
          r' <- each false r ;;
          Some (widget_setEnabled first x' :: r')
      end in
  let leaf (w : Widget) :=
    l <- build_widgets None (arguments a) ;;
    Some (set_arguments l (set_widget (Some w) a)) in
  match cls with
  | cls_Group =>
      l <- build_widgets None (arguments a) ;;
      Some (set_arguments l (set_widget (Some (Group (name a) true false)) a))
  | cls_HBox | cls_VBox =>
      l <- build_widgets None (arguments a) ;;
      Some (set_arguments l (set_widget (Some (Box (newline a) true)) a))
  | cls_HOr | cls_VOr =>
      l <- build_alternatives true (arguments a) ;;
      Some (set_arguments l
              (set_widget
                 (Some (Or (newline a) true
                          (map (fun i => Nat.eqb i 0)
                               (seq 0 (length (arguments a)))))) a))
  | cls_Combo => leaf (Combo (ArgumentWidget_init a) (Combo_items KWT a))
  | cls_Text => leaf (Text (ArgumentWidget_init a) (Text_setText (value a)))
  | cls_Line | cls_Int | cls_Float => leaf (Line (ArgumentWidget_init a) (value a))
  | cls_Bool => leaf (Bool (ArgumentWidget_init a) (required a))
  | cls_SelectFileWidget => leaf (SelectFileWidget (ArgumentWidget_init a) "")
  end.

(** [build_widgets(arguments, parent_layout)] *)
Fixpoint build_widgets_from (KWT : ImplementationIndex)
    (form_var : option string) (l : list Argument)
    : option (list Argument) :=
  match l with
  | [] => Some []
  | x :: r =>
      f <- select_form form_var x ;;
      c <- eval f ;;
      x' <- construct KWT c x ;;
      r' <- build_widgets_from KWT (select_form form_var x) r ;;
      Some (x' :: r')
  end.

Definition build_widgets (KWT : ImplementationIndex) (l : list Argument)
    : option (list Argument) :=
  build_widgets_from KWT None l.

(** The alternatives of an [Or]: one [build_widgets([a], hl)] each, the
    first one enabled, the others disabled. *)
Fixpoint build_alternatives (KWT : ImplementationIndex) (first : bool)
    (l : list Argument) : option (list Argument) :=
  match l with
  | [] => Some []
  | x :: r =>
      f <- select_form None x ;;
      c <- eval f ;;
      x' <- construct KWT c x ;;
      r' <- build_alternatives KWT false r ;;
      Some (widget_setEnabled first x' :: r')
  end.

(** A dialog opened on a keyword ([KeywordDialog.__init__]): the widgets
    of all its arguments are built. *)
Definition new_session (KWT : ImplementationIndex) (item : Item)
    : option Item :=
  l <- build_widgets KWT (get_arguments item) ;;
  Some (mkItem (itype item) (item_name item) l).

(** ** [accept]: the check of the required fields *)

(** [hasattr(w, 'required') and w.required]: only an [ArgumentWidget] has
    the attribute. *)
Definition argument_widget (w : Widget) : option ArgumentWidget :=
  match w with
  | Group _ _ _ | Box _ _ | Or _ _ _ => None
  | Combo self _ | Text self _ | Line self _ | Bool self _
  | SelectFileWidget self _ => Some self
  end.

Definition w_required (w : Widget) : bool :=
  match argument_widget w with
  | Some self => self_required self
  | None => false
  end.

(** The text of the warning shown for a required field left empty. *)
Definition warning (name : string) : string :=
  "Fill all required fields" ++
  (if negb (name =? "") then " " ++ name else "!").

(** The check [accept] makes on the widget of one argument: [Some msg] when
    the warning [msg] is shown and [accept] returns [False]. *)
Definition check_required (pe : bool) (a : Argument)
    : option (option string) :=
  match widget a with
  | Some w =>
      if w_required w then
        value <- text (isEnabled pe w) w ;;
        if value =? "" then
          Some (Some (warning (match argument_widget w with
                               | Some self => self_name self
                               | None => ""
                               end)))
        else Some None
      else Some None
  | None => Some None
  end.

Definition children_pe (pe : bool) (a : Argument) : bool :=
  match widget a with
  | Some w => children_enabled pe w
  | None => pe
  end.

(** One iteration of the loop of [accept], entered with the current [ok]:
    the warnings shown, and either the value returned from inside the loop
    ([inl]) or the new [ok] ([inr]). *)
Fixpoint accept_argument (pe : bool) (a : Argument) (ok : bool) {struct a}
    : option (list string * (bool + bool)) :=
  r <- check_required pe a ;;
  match r with
  | Some msg => Some ([msg], inl false)
  | None =>
      if ok then
        (fix loop (l : list Argument) (ok : bool) (shown : list string)
             : option (list string * (bool + bool)) :=
           match l with
           | [] => Some (shown, inr ok)
           | x :: r =>
               s <- accept_argument (children_pe pe a) x ok ;;
               match s with
               | (m, inl b) => Some ((shown ++ m)%list, inr b)
               | (m, inr ok') => loop r ok' (shown ++ m)%list
               end
           end) (arguments a) true []
      else Some ([], inr false)
  end.

(** [accept(arguments, depth)] for [depth > 0]: the warnings shown and the
    value returned. *)
Fixpoint accept_arguments (pe : bool) (l : list Argument) (ok : bool)
    (shown : list string) : option (list string * bool) :=
  match l with
  | [] => Some (shown, ok)
  | x :: r =>
      s <- accept_argument pe x ok ;;
      match s with
      | (m, inl b) => Some ((shown ++ m)%list, b)
      | (m, inr ok') => accept_arguments pe r ok' (shown ++ m)%list
      end
  end.

(** [KeywordDialog.accept()]: the warnings shown, and whether the dialog is
    accepted ([super().accept()] is called). *)
Definition accept (ITEM : Item) : option (list string * bool) :=
  accept_arguments true (get_arguments ITEM) true [].

(** ** The events of a dialog

    Qt delivers the actions of the user to the controls; the module reacts
    through the connected slots.  The radio buttons of an [Or] share their
    parent and are exclusive: a click on an unchecked button checks it and
    unchecks the checked one, and [toggled] is emitted by every button that
    changes, which runs [a.widget.setEnabled] of its alternative. *)

Fixpoint update_nth {A : Type} (i : nat) (f : A -> A) (l : list A) : list A :=
  match l, i with
  | [], _ => []
  | x :: r, O => f x :: r
  | x :: r, S i' => x :: update_nth i' f r
  end.

(** The argument reached from the list [l] by the indices of [path]. *)
Fixpoint update_at (f : Argument -> Argument) (path : list nat)
    (l : list Argument) : list Argument :=
  match path with
  | [] => l
  | [i] => update_nth i f l
  | i :: p =>
      update_nth i (fun a => set_arguments (update_at f p (arguments a)) a) l
  end.

(** The slots [a.widget.setEnabled] run by the [toggled] signals when
    button [j] becomes the checked one; [i] is the index of the head of
    [l], [rb] the state of the buttons before the click. *)
Fixpoint toggle_alternatives (j i : nat) (rb : list bool)
    (l : list Argument) : list Argument :=
  match l with
  | [] => []
  | x :: r =>
      (match rb with
       | b :: _ =>
           if Bool.eqb b (Nat.eqb i j) then x
           else widget_setEnabled (Nat.eqb i j) x
       | [] => x
       end) :: toggle_alternatives j (S i) (tl rb) r
  end.

(** A click on radio button [j] of an [Or] whose buttons are enabled. *)
Definition click (j : nat) (a : Argument) : Argument :=
  match widget a with
  | Some (Or nl en rb) =>
      if nth j rb true then a
      else
        set_arguments (toggle_alternatives j 0 rb (arguments a))
          (set_widget
             (Some (Or nl en (map (fun i => Nat.eqb i j) (seq 0 (length rb)))))
             a)
  | _ => a
  end.

(** The group box of a [Group] or the check box of a [Bool] is set. *)
Definition setChecked (b : bool) (a : Argument) : Argument :=
  match widget a with
  | Some (Group nm en _) => set_widget (Some (Group nm en b)) a
  | Some (Bool self _) => set_widget (Some (Bool self b)) a
  | _ => a
  end.

(** The text of a [Text], [Line] or [SelectFileWidget] is replaced. *)
Definition setText (s : string) (a : Argument) : Argument :=
  match widget a with
  | Some (Text self _) => set_widget (Some (Text self s)) a
  | Some (Line self _) => set_widget (Some (Line self s)) a
  | Some (SelectFileWidget self _) =>
      set_widget (Some (SelectFileWidget self s)) a
  | _ => a
  end.

(** An item of a [Combo] is chosen. *)
Definition setCurrentIndex (i : Z) (a : Argument) : Argument :=
  match widget a with
  | Some (Combo self c) =>
      set_widget (Some (Combo self (mkQComboBox (items c) i))) a
  | _ => a
  end.

Definition set_label (l : option Label) (self : ArgumentWidget)
    : ArgumentWidget :=
  mkArgumentWidget (self_name self) (self_required self) (self_newline self)
    (self_readonly self) l (w_enabled self).

(** [self.label.setCurrentIndex(i)] where the label is the combo box of a
    name such as [FREQUENCY|TIME POINTS]; a [QLabel] has nothing to
    choose. *)
Definition label_setCurrentIndex (i : Z) (self : ArgumentWidget)
    : ArgumentWidget :=
  match self_label self with
  | Some (QComboLabel c) =>
      set_label (Some (QComboLabel (mkQComboBox (items c) i))) self
  | _ => self
  end.

(** An alternative of the name is chosen in the label of a leaf. *)
Definition setLabel (i : Z) (a : Argument) : Argument :=
  match widget a with
  | Some (Combo self c) =>
      set_widget (Some (Combo (label_setCurrentIndex i self) c)) a
  | Some (Text self t) =>
      set_widget (Some (Text (label_setCurrentIndex i self) t)) a
  | Some (Line self t) =>
      set_widget (Some (Line (label_setCurrentIndex i self) t)) a
  | Some (Bool self ck) =>
      set_widget (Some (Bool (label_setCurrentIndex i self) ck)) a
  | Some (SelectFileWidget self t) =>
      set_widget (Some (SelectFileWidget (label_setCurrentIndex i self) t)) a
  | _ => a
  end.

(** What the user can do to the widget found at [path]: click a radio
    button of an [Or], check or uncheck a group box or a check box, replace
    the text of a text control, choose an item of a combo box, choose an
    alternative in the label of a name with alternatives.  Every one of
    these controls is connected to [change].  Qt delivers no input to a
    disabled control; the events are not restricted to the enabled controls
    here, so that the sessions they reach include every session the user
    can reach. *)
Inductive Event :=
| Click (path : list nat) (j : nat)
| Toggle (path : list nat) (b : bool)
| Edit (path : list nat) (s : string)
| Choose (path : list nat) (i : Z)
| Relabel (path : list nat) (i : Z).

Definition apply_event (e : Event) (l : list Argument) : list Argument :=
  match e with
  | Click path j => update_at (click j) path l
  | Toggle path b => update_at (setChecked b) path l
  | Edit path s => update_at (setText s) path l
  | Choose path i => update_at (setCurrentIndex i) path l
  | Relabel path i => update_at (setLabel i) path l
  end.

(** The dialog: the item with its widgets, and the content of the text
    edit. *)
Record Dialog := mkDialog {
  ITEM : Item;
  TEXTEDIT : string
}.

(** An event changes its widget, and the connected slot [change]
    regenerates the text. *)
Definition handle (e : Event) (d : Dialog) : option Dialog :=
  let item := mkItem (itype (ITEM d)) (item_name (ITEM d))
                (apply_event e (get_arguments (ITEM d))) in
  T <- change item [] false (TEXTEDIT d) ;;
  Some (mkDialog item T).

Fixpoint run (h : list Event) (d : Dialog) : option Dialog :=
  match h with
  | [] => Some d
  | e :: r => d' <- handle e d ;; run r d'
  end.

(** [KeywordDialog.__init__] on a keyword: the widgets are built and
    [change(None)] fills the text edit with the default INP code. *)
Definition open_dialog (KWT : ImplementationIndex) (item : Item)
    : option Dialog :=
  item' <- new_session KWT item ;;
  T <- change item' [] false "" ;;
  Some (mkDialog item' T).

(** ** Predicates on widgets *)

(** A leaf is off when its control is disabled or holds the empty string
    (a check box: is not checked). *)
Definition leaf_off (w : Widget) : bool :=
  match w with
  | Group _ _ _ | Box _ _ | Or _ _ _ => false
  | Combo self c => negb (w_enabled self) || (currentText c =? "")
  | Text self t | Line self t | SelectFileWidget self t =>
      negb (w_enabled self) || (t =? "")
  | Bool self ck => negb (w_enabled self) || negb ck
  end.

(** A group whose nested widgets are disabled: a [Group] that is not
    checked, or a [Group], [Box] or [Or] that is disabled. *)
Definition group_disabled (pe : bool) (w : Widget) : bool :=
  match w with
  | Group _ en ck => negb (pe && en && ck)
  | Box _ en | Or _ en _ => negb (pe && en)
  | _ => false
  end.

Definition is_SelectFileWidget (w : Widget) : bool :=
  match w with
  | SelectFileWidget _ _ => true
  | _ => false
  end.

(** ** Example sessions *)

(** An argument of the grammar, before any widget is built. *)
Definition grammar_argument (name form use value : string)
    (required newline : bool) (arguments : list Argument) : Argument :=
  mkArgument name form use value "" required newline false None arguments.

(** The keyword [*CONSTRAINT]: a required [NAME], an optional [TYPE] with a
    list of values, and [PENALTY] on a line of its own. *)
Definition CONSTRAINT : Item :=
  mkItem KEYWORD "*CONSTRAINT"
    [ grammar_argument "NAME" "Line" "" "" true false [];
      grammar_argument "TYPE" "Combo" "" "DISTRIBUTING|KINEMATIC" false false [];
      grammar_argument "PENALTY" "Float" "" "" false true [] ].

(** The session on [*CONSTRAINT] in which [NAME] holds [C1], [TYPE] holds
    [DISTRIBUTING] and the control of [PENALTY], whatever it holds, is
    disabled. *)
Definition CONSTRAINT_session (penalty : string) : Item :=
  mkItem KEYWORD "*CONSTRAINT"
    [ mkArgument "NAME" "Line" "" "" "" true false false
        (Some (Line (mkArgumentWidget "NAME" true false false
                       (Some (QLabel "NAME")) true) "C1")) [];
      mkArgument "TYPE" "Combo" "" "DISTRIBUTING|KINEMATIC" "" false false false
        (Some (Combo (mkArgumentWidget "TYPE" false false false
                        (Some (QLabel "TYPE")) true)
                 (mkQComboBox ["DISTRIBUTING"; "KINEMATIC"] 0))) [];
      mkArgument "PENALTY" "Float" "" "" "" false true false
        (Some (Line (mkArgumentWidget "PENALTY" false true false
                       (Some (QLabel "PENALTY")) false) penalty)) [] ].

(** A keyword with two alternatives: a value typed in, or a file. *)
Definition INCLUDE : Item :=
  mkItem KEYWORD "*INCLUDE"
    [ grammar_argument "" "VOr" "" "" false false
        [ grammar_argument "NAME" "Line" "" "" false false [];
          grammar_argument "INPUT" "SelectFileWidget" "" "" false false [] ] ].

(** The user chooses the file alternative, selects a file, and goes back
    to the first alternative to type a name. *)
Definition INCLUDE_history : list Event :=
  [ Click [0] 1; Edit [0; 1] "f.inp"; Click [0] 0; Edit [0; 0] "N1" ].

(** The dialog after that history. *)
Definition INCLUDE_final : option Dialog :=
  d <- open_dialog [] INCLUDE ;; run INCLUDE_history d.

(** ** The arguments of a session *)

(** An argument and the arguments nested in it, in document order. *)
Fixpoint subtree (a : Argument) : list Argument :=
  a :: flat_map subtree (arguments a).

Definition nodes (l : list Argument) : list Argument := flat_map subtree l.

(** Whether a required argument is nested in the list. *)
Definition contains_required (l : list Argument) : bool :=
  existsb required (nodes l).

(** The default state that [__init__] gives the widget of an argument: a
    [Group] has its group box unchecked, an [Or] has the radio button
    of its first alternative checked and no other, a [Bool] is checked
    when the argument is required. *)
Definition first_only (n : nat) : list bool :=
  map (fun i => Nat.eqb i 0) (seq 0 n).

Definition default_state (a : Argument) : Prop :=
  match widget a with
  | Some (Group _ _ ck) => ck = false
  | Some (Or _ _ rb) => rb = first_only (length (arguments a))
  | Some (Bool _ ck) => ck = required a
  | Some _ => True
  | None => False
  end.

(** ** The alternatives of an [Or] *)

(** The flag that [a.widget.setEnabled] sets. *)
Definition enabled_flag (w : Widget) : bool :=
  match w with
  | Group _ en _ | Box _ en | Or _ en _ => en
  | Combo self _ | Text self _ | Line self _ | Bool self _
  | SelectFileWidget self _ => w_enabled self
  end.

Definition flag_of (x : Argument) : option bool :=
  option_map enabled_flag (widget x).

(** The indices of the radio buttons that are checked. *)
Fixpoint selected_from (i : nat) (rb : list bool) : list nat :=
  match rb with
  | [] => []
  | b :: r => ((if b then [i] else []) ++ selected_from (S i) r)%list
  end.

Definition selected (rb : list bool) : list nat := selected_from 0 rb.

(** Exactly one alternative of an [Or] is active: one radio button is
    checked, and the widget of each alternative is enabled as its button
    is checked. *)
Definition exactly_one (a : Argument) : Prop :=
  match widget a with
  | Some (Or _ _ rb) =>
      (exists i, selected rb = [i]) /\
      map flag_of (arguments a) = map Some rb
  | _ => True
  end.

(** The first alternative of an [Or] is the active one. *)
Definition first_selected (a : Argument) : Prop :=
  match widget a with
  | Some (Or _ _ rb) => selected rb = [0]
  | _ => True
  end.

(** An [Or] has at least one alternative. *)
Definition alternatives_exist (a : Argument) : Prop :=
  match widget a with
  | Some (Or _ _ _) => arguments a <> []
  | _ => True
  end.

(** The widgets built by a constructor: in every [Or] the first radio
    button is the checked one and the alternatives are enabled as their
    buttons are checked. *)
Definition built_Or (a : Argument) : Prop :=
  match widget a with
  | Some (Or _ _ rb) =>
      rb = first_only (length (arguments a)) /\
      map flag_of (arguments a) = map Some rb
  | _ => True
  end.

(** The widgets after the events of [h], from the first to the last. *)
Definition after (h : list Event) (l : list Argument) : list Argument :=
  fold_left (fun l e => apply_event e l) h l.

(** A keyword with an [Or] of two alternatives nested in a group. *)
Definition NESTED_OR : Item :=
  mkItem KEYWORD "*KEYWORD"
    [ grammar_argument "OPTIONS" "Group" "" "" false false
        [ grammar_argument "" "HOr" "" "" false false
            [ grammar_argument "A" "Line" "" "" false false [];
              grammar_argument "B" "Bool" "" "" false false [] ] ] ].

(** ** Separators at the start of a line *)





(** ** The text edit

    [TEXTEDIT] is a [QTextEdit].  [setText] takes its argument for HTML
    when [Qt::mightBeRichText] says so, which needs a ['<'] or a ['&'] in
    the text; the document turns a carriage return into a line break, and
    [toPlainText] a no-break space into a space.  A text without these four
    characters is kept as it is. *)

Definition altered_char (c : ascii) : bool :=
  Ascii.eqb c "<" || Ascii.eqb c "&" || Ascii.eqb c "013" || Ascii.eqb c "160".

(** The text edit keeps the text as it is. *)
Fixpoint plain (s : string) : bool :=
  match s with
  | EmptyString => true
  | String c s' => negb (altered_char c) && plain s'
  end.

Section QTextEdit.

(** What [toPlainText] returns once the text edit was given a text that
    is not plain: the rendering of Qt, which the module does not
    control. *)
Variable rendered : string -> string.





End QTextEdit.






(** ** Generation as a function of the session *)



(** ** Example sessions with line breaks and without label *)




(** A keyword whose data lines are typed into a text edit. *)
Definition NODE : Item :=
  mkItem KEYWORD "*NODE"
    [ grammar_argument "" "Text" "" "" false true [] ].


(** ** Required fields *)

(** An argument and the arguments nested in it, in document order, each
    with the enabled state of its parent widget. *)
Fixpoint visit (pe : bool) (a : Argument) : list (bool * Argument) :=
  (pe, a) :: flat_map (visit (children_pe pe a)) (arguments a).

Definition visits (pe : bool) (l : list Argument) : list (bool * Argument) :=
  flat_map (visit pe) l.

(** The check of [accept] passes on the argument: it is not required, or
    its widget returns a text that is not empty. *)
Definition filled (p : bool * Argument) : Prop :=
  check_required (fst p) (snd p) = Some None.

(** The check of [accept] fails on the argument with the warning [msg]. *)
Definition unfilled (msg : string) (p : bool * Argument) : Prop :=
  check_required (fst p) (snd p) = Some (Some msg).





(** What [accept] has checked and shown when it returns. *)
Definition accept_sound (a : Argument) : Prop :=
  forall pe ok m r, accept_argument pe a ok = Some (m, r) ->
    (r = inr true -> ok = true /\ m = [] /\ Forall filled (visit pe a)) /\
    (r <> inr true -> ok = false \/ m <> []) /\
    (forall b, r = inl b -> b = false /\ m <> []) /\
    Forall (fun msg => Exists (unfilled msg) (visit pe a)) m.

(** Two required fields, both empty. *)
Definition TWO_REQUIRED : Item :=
  mkItem KEYWORD "*KEYWORD"
    [ grammar_argument "A" "Line" "" "" true false [];
      grammar_argument "B" "Line" "" "" true false [] ].

(** ** Check boxes with a label *)

(** The check box of a [Bool] has a label to read its text from. *)
Definition labelled_widget (w : Widget) : Prop :=
  match w with
  | Bool self _ => self_label self <> None
  | _ => True
  end.

Definition labelled (a : Argument) : Prop :=
  match widget a with
  | Some w => labelled_widget w
  | None => True
  end.

(** ** Cross-references *)

Definition SURFACE (name : string) : Implementation :=
  mkImplementation "*SURFACE" name ["*SURFACE, NAME=" ++ name].

(** An argument that refers to the implementations of [*SURFACE]. *)
Definition SURFACE_reference : Argument :=
  grammar_argument "SURFACE" "" "*SURFACE" "" false false [].

(** The widget of that argument when no [*SURFACE] exists and the user
    has chosen the placeholder. *)
Definition SURFACE_missing : Argument :=
  mkArgument "SURFACE" "" "*SURFACE" "" "" false false false
    (Some (Combo (mkArgumentWidget "SURFACE" false false false
                    (Some (QLabel "SURFACE")) true)
             (mkQComboBox [""; "!!! Create *SURFACE first !!!"] 1))) [].

(** The item [Combo.__init__] adds when the keyword has no
    implementation. *)
Definition placeholder (use : string) : string :=
  "!!! Create " ++ use ++ " first !!!".

(** A group with a required argument in it. *)
Definition OPTIONAL_WITH_REQUIRED : Item :=
  mkItem KEYWORD "*KEYWORD"
    [ grammar_argument "OPTIONS" "Group" "" "" false false
        [ grammar_argument "NAME" "Line" "" "" true false [] ] ].

(** ** Induction over the tree of arguments *)

Section ArgumentInduction.

Variable P : Argument -> Prop.
Hypothesis step : forall nm fm us vl cm rq nl ro w l,
  Forall P l -> P (mkArgument nm fm us vl cm rq nl ro w l).

Fixpoint Argument_tree_ind (a : Argument) : P a :=
  match a with
  | mkArgument nm fm us vl cm rq nl ro w l =>
      step nm fm us vl cm rq nl ro w l
        ((fix all (l : list Argument) : Forall P l :=
            match l with
            | [] => Forall_nil P
            | x :: r => Forall_cons x (Argument_tree_ind x) (all r)
            end) l)
  end.

End ArgumentInduction.


(** * The rest of the dialog *)

(** ** [reset]: the widgets go back to their initial state *)

(** [QComboBox.setCurrentIndex]: an index outside the items leaves the
    combo box without current item. *)
Definition QComboBox_setCurrentIndex (i : Z) (c : QComboBox) : QComboBox :=
  mkQComboBox (items c)
    (if (0 <=? i)%Z && (i <? Z.of_nat (length (items c)))%Z then i
     else (-1)%Z).

(** [a.widget.reset()], where the widget has the method, for one argument
    of the loop of [reset(arguments)]: [Group.reset] unchecks the group box
    and resets the nested arguments, [GroupWidget.reset] ([Box], [Or])
    resets the nested arguments, the leaves reset their own control from
    [self.argument]. *)
Fixpoint reset_argument (a : Argument) : Argument :=
  match widget a with
  | None => a
  | Some (Group nm en _) =>
      set_arguments (map reset_argument (arguments a))
        (set_widget (Some (Group nm en false)) a)
  | Some (Box _ _) | Some (Or _ _ _) =>
      set_arguments (map reset_argument (arguments a)) a
  | Some (Combo self c) =>
      set_widget (Some (Combo self (QComboBox_setCurrentIndex 0 c))) a
  | Some (Text self _) =>
      set_widget (Some (Text self (Text_setText (value a)))) a
  | Some (Line self _) => set_widget (Some (Line self (value a))) a
  | Some (Bool self _) => set_widget (Some (Bool self (required a))) a
  | Some (SelectFileWidget self _) =>
      set_widget (Some (SelectFileWidget self (value a))) a
  end.

(** [reset(arguments)] *)
Definition reset (arguments : list Argument) : list Argument :=
  map reset_argument arguments.

(** The radio buttons of an [Or]. *)
Definition selection (a : Argument) : option (list bool) :=
  match widget a with
  | Some (Or _ _ rb) => Some rb
  | _ => None
  end.

(** An argument whose widget is a leaf, or that has no widget, has no
    nested arguments. *)
Definition flat_leaf (a : Argument) : Prop :=
  match widget a with
  | Some (Group _ _ _) | Some (Box _ _) | Some (Or _ _ _) => True
  | _ => arguments a = []
  end.

(** The event changes a value or a check mark: it is no click on a radio
    button and no choice in a label, which no [reset] method undoes. *)
Definition is_edit (e : Event) : bool :=
  match e with
  | Toggle _ _ | Edit _ _ | Choose _ _ => true
  | Click _ _ | Relabel _ _ => false
  end.

(** The file selector of the argument, if it is one, has no initial
    value. *)
Definition no_initial_file (a : Argument) : Prop :=
  match widget a with
  | Some (SelectFileWidget _ _) => value a = ""
  | _ => True
  end.

(** The current item of a combo box filled by [addItems] only: the first
    one, if any. *)
Definition first_is_current (c : QComboBox) : Prop :=
  currentIndex c = if match items c with [] => true | _ => false end
                   then (-1)%Z else 0%Z.

(** ** The grammar under a session *)

(** The argument without the widgets [build_widgets] has assigned. *)
Fixpoint erase (a : Argument) : Argument :=
  mkArgument (name a) (form a) (use a) (value a) (comment a) (required a)
    (newline a) (readonly a) None (map erase (arguments a)).

(** The arguments of a list are built one after the other by the same
    class. *)
Fixpoint construct_all (KWT : ImplementationIndex) (cls : WidgetClass)
    (l : list Argument) : option (list Argument) :=
  match l with
  | [] => Some []
  | x :: r =>
      x' <- construct KWT cls x ;;
      r' <- construct_all KWT cls r ;;
      Some (x' :: r')
  end.

(** A reference to [*SURFACE] whose [form] asks for a line edit. *)
Definition SURFACE_as_Line : Argument :=
  grammar_argument "SURFACE" "Line" "*SURFACE" "" false false [].

(** ** The first warning of [accept] *)

(** [msg] is the warning for the first argument of [l], in that order,
    on which the check of [accept] fails. *)
Definition first_unfilled (msg : string) (l : list (bool * Argument)) : Prop :=
  exists l1 p l2, l = (l1 ++ p :: l2)%list /\ Forall filled l1 /\ unfilled msg p.

Definition accept_first (a : Argument) : Prop :=
  forall pe m r, accept_argument pe a true = Some (m, r) ->
    match m with
    | [] => True
    | msg :: _ => first_unfilled msg (visit pe a)
    end.

(** A required leaf other than a file selector is enabled, its control
    too, and holds a value (a check box: is checked). *)
Definition required_leaf_is_filled (p : bool * Argument) : Prop :=
  forall w, widget (snd p) = Some w ->
            w_required w = true -> is_SelectFileWidget w = false ->
            fst p = true /\ leaf_off w = false.

(** ** The lines returned by [ok] *)

(** Every character of the string is white space. *)
Fixpoint all_space (s : string) : bool :=
  match s with
  | EmptyString => true
  | String c s' => Py.isspace c && all_space s'
  end.

(** No character of the string is white space. *)
Fixpoint no_space (s : string) : bool :=
  match s with
  | EmptyString => true
  | String c s' => negb (Py.isspace c) && no_space s'
  end.

(** ** The help page and the icon of a keyword *)

Section Paths.

(** [os.path.join], whatever the platform makes of it. *)
Variable os_path_join : string -> string -> string.

(** [p.doc] and [p.img], the directories of the help pages and of the
    images. *)
Variables (doc img : string).

(** The name of the HTML page of a keyword: the name without its star,
    spaces and hyphens replaced ([get_help_url] of the dialog and
    [regenerate_documentation] of [doc.py] both compute it). *)
Definition html_page_name (keyword_name : string) : string :=
  Py.sub_space_hyphen keyword_name.

(** [KeywordDialog.get_help_url]; [parent_name] is [ITEM.parent.name], read
    for an implementation. *)
Definition get_help_url (ITEM : Item) (parent_name : string) : string :=
  let keyword_name :=
    match itype ITEM with
    | KEYWORD => Py.slice_from 1 (item_name ITEM)
    | IMPLEMENTATION => Py.slice_from 1 parent_name
    end in
  os_path_join doc (html_page_name keyword_name ++ ".html").

(** [regenerate_documentation] of [doc.py]: for each keyword, the name
    and the file passed to [save_html]. *)
Definition regenerate_documentation (keywords : list Item)
    : list (string * string) :=
  map (fun item =>
         let keyword_name := Py.slice_from 1 (item_name item) in
         (keyword_name,
          os_path_join doc (html_page_name keyword_name ++ ".html")))
      keywords.

(** The file of the window icon, set in [KeywordDialog.__init__]. *)
Definition icon_name (item : Item) : string :=
  let icon_name := Py.remove "*" (item_name item) ++ ".png" in
  let icon_name := Py.replace " " "_" icon_name in
  let icon_name := Py.replace "-" "_" icon_name in
  icon_name.

Definition icon_path (item : Item) : string :=
  os_path_join img ("icon_" ++ Py.lower (icon_name item)).

End Paths.

(** ** Values of a combo box *)

(** A piece of [argument.value] that [ArgumentWidget.text] writes: not
    empty, and not a placeholder. *)
Definition written_value (p : string) : Prop :=
  p <> "" /\ Py.startswith p "!!! Create *" = false.

(** ** Example arguments *)

(** A line edit that is disabled and holds a value. *)
Definition PENALTY_off : Argument :=
  mkArgument "PENALTY" "Float" "" "" "" false true false
    (Some (Line (mkArgumentWidget "PENALTY" false true false
                   (Some (QLabel "PENALTY")) false) "7")) [].

(** ** The dialog of an implementation *)

Section Append.

(** The plain text of the document after [append] of a line that is not
    plain: [QTextEdit.append] guesses the format of its argument as
    [setText] does. *)
Variable appended : string -> string -> string.

(** [TEXTEDIT.append(line)], read back by [TEXTEDIT.toPlainText()]. *)
Definition TEXTEDIT_append (doc line : string) : string :=
  if plain line then QTextEdit_append doc line else appended doc line.

(** [KeywordDialog.__init__] on an implementation: the lines of its INP
    code are appended to the empty text edit. *)
Definition show_inp_code (inp_code : list string) : string :=
  fold_left TEXTEDIT_append inp_code "".

End Append.

(** The string begins with a character that is not white space. *)
Definition begins_without_space (s : string) : bool :=
  match s with
  | EmptyString => false
  | String c _ => negb (Py.isspace c)
  end.

(** The string ends with a character that is not white space. *)
Fixpoint ends_without_space (s : string) : bool :=
  match s with
  | EmptyString => false
  | String c EmptyString => negb (Py.isspace c)
  | String _ s' => ends_without_space s'
  end.

(** ** The button Reset *)

(** [KeywordDialog.reset]: the widgets are reset and [change(None)]
    regenerates the text.  (The controls that change on the way emit their
    signals, which run [change] on the intermediate states; the text they
    leave is overwritten by this last run.) *)
Definition KeywordDialog_reset (d : Dialog) : option Dialog :=
  let item := mkItem (itype (ITEM d)) (item_name (ITEM d))
                (reset (get_arguments (ITEM d))) in
  T <- change item [] false (TEXTEDIT d) ;;
  Some (mkDialog item T).
(** * Properties *)

(** ** Equations of the traversals *)

Lemma change_argument_eq pe a T :
  change_argument pe a T =
  match widget a with
  | None => Some T
  | Some w =>
      new_value <- (if isEnabled pe w then text (isEnabled pe w) w
                    else Some "") ;;
      change_arguments (children_enabled pe w) (arguments a)
        (append_value T new_value)
  end.
Proof.
  destruct a as [nm fm us vl cm rq nl ro w l]; simpl.
  destruct w as [w|]; [|reflexivity].
  destruct (if isEnabled pe w then text (isEnabled pe w) w else Some "")
    as [v|]; [|reflexivity].
  generalize (append_value T v). clear.
  induction l as [|x r IH]; intros T; simpl; [reflexivity|].
  destruct (change_argument (children_enabled pe w) x T); auto.
Qed.

Lemma change_arguments_app pe l1 l2 T :
  change_arguments pe (l1 ++ l2) T =
  (T' <- change_arguments pe l1 T ;; change_arguments pe l2 T').
Proof.
  revert T; induction l1 as [|x r IH]; intros T; simpl; [reflexivity|].
  destruct (change_argument pe x T); auto.
Qed.

Lemma append_value_empty T : append_value T "" = T.
Proof.
  unfold append_value. rewrite andb_false_r.
  induction T; simpl; congruence.
Qed.

Lemma isEnabled_false w : isEnabled false w = false.
Proof. destruct w; reflexivity. Qed.

Lemma children_enabled_false w : children_enabled false w = false.
Proof. destruct w; reflexivity. Qed.

(** Under a disabled parent no widget is asked for its text, and the text
    edit keeps its content. *)
Lemma change_argument_disabled a : forall T, change_argument false a T = Some T.
Proof.
  induction a as [nm fm us vl cm rq nl ro w l IH] using Argument_tree_ind.
  intros T. rewrite change_argument_eq; simpl.
  destruct w as [w|]; [|reflexivity].
  rewrite isEnabled_false, children_enabled_false, append_value_empty.
  revert T. induction IH as [|x r Hx _ IHr]; intros T; simpl; [reflexivity|].
  rewrite Hx. apply IHr.
Qed.

Lemma change_arguments_disabled l : forall T,
  change_arguments false l T = Some T.
Proof.
  induction l as [|x r IH]; intros T; simpl; [reflexivity|].
  rewrite change_argument_disabled. apply IH.
Qed.

(** ** Strings *)

Lemma startswith_app p s : Py.startswith (p ++ s) p = true.
Proof.
  unfold Py.startswith. induction p as [|c p IH]; simpl.
  - destruct s; reflexivity.
  - destruct (ascii_dec c c); [assumption|congruence].
Qed.

(** ** Leaves that are switched off *)

Lemma ArgumentWidget_text_off en self ct :
  negb (w_enabled self) || (ct =? "") = true ->
  ArgumentWidget_text en self ct = "".
Proof.
  unfold ArgumentWidget_text. intros H.
  destruct en, (w_enabled self); simpl in *; try reflexivity.
  rewrite H. reflexivity.
Qed.

(** X1: every leaf but the file selector is silent when it is switched
    off or empty: the text edit receives what its nested arguments add,
    and nothing else. *)
Lemma leaf_off_silent pe a w T :
  widget a = Some w ->
  leaf_off w = true ->
  is_SelectFileWidget w = false ->
  change_argument pe a T = change_arguments (isEnabled pe w) (arguments a) T.
Proof.
  intros Hw Hoff Hsel. rewrite change_argument_eq, Hw.
  assert (Ht : (if isEnabled pe w then text (isEnabled pe w) w else Some "")
               = Some "").
  { destruct (isEnabled pe w) eqn:E; [|reflexivity].
    destruct w; simpl in *; try discriminate;
      try (rewrite ArgumentWidget_text_off by assumption; reflexivity).
    unfold Bool_text. destruct (w_enabled self), checked; simpl in *;
      try discriminate; reflexivity. }
  rewrite Ht, append_value_empty.
  destruct w; simpl in *; try discriminate; reflexivity.
Qed.

(** ** Generation on the example sessions *)

(** C1: on the session of [*CONSTRAINT] where [NAME] holds [C1], [TYPE]
    holds [DISTRIBUTING] and [PENALTY] (on a line of its own) is disabled,
    whatever it holds and whatever the text edit showed before, [change]
    followed by [ok] yields the single line
    [*CONSTRAINT, NAME=C1, TYPE=DISTRIBUTING]: the keyword first, the values
    joined by a comma and a space as [NAME=VALUE], nothing for the disabled
    leaf, no trailing separator and no line break. *)
Theorem CONSTRAINT_generates_single_line : forall penalty before,
  change (CONSTRAINT_session penalty) [] false before
    = Some "*CONSTRAINT, NAME=C1, TYPE=DISTRIBUTING" /\
  option_map ok (change (CONSTRAINT_session penalty) [] false before)
    = Some ["*CONSTRAINT, NAME=C1, TYPE=DISTRIBUTING"].
Proof.
  intros penalty before.
  assert (H : change (CONSTRAINT_session penalty) [] false before
              = Some "*CONSTRAINT, NAME=C1, TYPE=DISTRIBUTING")
    by reflexivity.
  split; [exact H|]. rewrite H. reflexivity.
Qed.

(** The session above is the one the dialog reaches from the grammar of
    [*CONSTRAINT] when [C1] is typed into [NAME], up to the disabled
    control of [PENALTY]. *)
Lemma CONSTRAINT_session_reached :
  option_map (fun d => update_at (widget_setEnabled false) [2]
                         (get_arguments (ITEM d)))
    (d <- open_dialog [] CONSTRAINT ;; run [Edit [0] "C1"; Edit [2] "7"] d)
  = Some (get_arguments (CONSTRAINT_session "7")).
Proof. reflexivity. Qed.

(** C2, at the failing session: after the history [INCLUDE_history] the
    file alternative of [*INCLUDE] is switched off (its radio button is
    unchecked, its line edit disabled), and yet the file name is in the
    generated text, glued to the value before it. *)
Theorem unselected_file_is_emitted :
  option_map (fun d => map widget (get_arguments (ITEM d))) INCLUDE_final
    = Some [Some (Or false true [true; false])] /\
  option_map (fun d => map (fun a => option_map leaf_off (widget a))
                         (nodes (get_arguments (ITEM d)))) INCLUDE_final
    = Some [Some false; Some false; Some true] /\
  option_map TEXTEDIT INCLUDE_final = Some "*INCLUDE, NAME=N1f.inp" /\
  option_map (fun d => ok (TEXTEDIT d)) INCLUDE_final
    = Some ["*INCLUDE, NAME=N1f.inp"].
Proof. repeat split; vm_compute; reflexivity. Qed.

(** ** Disabled groups *)

(** C4: whatever the session, a group that is disabled (a [Group] whose
    group box is not checked, or a [Group], [Box] or [Or] that is itself
    disabled) leaves the generated text as it is, and so does every
    argument nested in it, at any depth and whatever its own value and
    flags: the traversal of the whole subtree returns the text it
    received. *)
Theorem disabled_Group_contributes_nothing : forall pe a w T,
  widget a = Some w ->
  group_disabled pe w = true ->
  change_argument pe a T = Some T /\
  change_arguments (children_enabled pe w) (arguments a) T = Some T.
Proof.
  intros pe a w T Hw Hoff.
  assert (Hc : children_enabled pe w = false).
  { destruct w; simpl in *; try discriminate;
      apply negb_true_iff in Hoff; assumption. }
  assert (Ht : (if isEnabled pe w then text (isEnabled pe w) w else Some "")
               = Some "").
  { destruct w; simpl in *; try discriminate.
    - destruct (pe && enabled); simpl in *; [|reflexivity].
      rewrite Hc. reflexivity.
    - rewrite Hc. reflexivity.
    - rewrite Hc. reflexivity. }
  split.
  - rewrite change_argument_eq, Hw, Ht, Hc, append_value_empty.
    apply change_arguments_disabled.
  - rewrite Hc. apply change_arguments_disabled.
Qed.

Lemma disabled_Group_contributes_nothing_witness :
  change_argument true
    (mkArgument "OPTIONS" "Group" "" "" "" false false false
       (Some (Group "OPTIONS" true false))
       [ mkArgument "NAME" "Line" "" "" "" true false false
           (Some (Line (mkArgumentWidget "NAME" true false false
                          (Some (QLabel "NAME")) true) "C1")) [] ])
    "*KEYWORD" = Some "*KEYWORD".
Proof.
  apply (disabled_Group_contributes_nothing true _
           (Group "OPTIONS" true false)); reflexivity.
Defined.

(** ** The placeholder of a cross-reference *)

(** C10: when the combo box of a cross-reference to a keyword [*K] without
    implementations shows the placeholder [!!! Create *K first !!!], the
    leaf adds nothing to the generated text: the text edit receives what
    the nested arguments add, and nothing else. *)
Theorem placeholder_is_not_emitted : forall pe a self c k T,
  widget a = Some (Combo self c) ->
  currentText c = "!!! Create " ++ String "*" k ++ " first !!!" ->
  change_argument pe a T = change_arguments pe (arguments a) T.
Proof.
  intros pe a self c k T Hw Hc.
  rewrite change_argument_eq, Hw. simpl isEnabled.
  assert (Ht : (if pe then text pe (Combo self c) else Some "") = Some "").
  { destruct pe; [|reflexivity]. simpl. rewrite Hc.
    unfold ArgumentWidget_text.
    change ("!!! Create " ++ String "*" k ++ " first !!!")
      with ("!!! Create *" ++ (k ++ " first !!!")).
    rewrite startswith_app. destruct (w_enabled self); reflexivity. }
  rewrite Ht, append_value_empty. reflexivity.
Qed.

Lemma placeholder_is_not_emitted_witness :
  change_argument true SURFACE_missing "*KEYWORD"
  = change_arguments true (arguments SURFACE_missing) "*KEYWORD".
Proof.
  apply (placeholder_is_not_emitted true SURFACE_missing
           (mkArgumentWidget "SURFACE" false false false
              (Some (QLabel "SURFACE")) true)
           (mkQComboBox [""; "!!! Create *SURFACE first !!!"] 1)
           "SURFACE" "*KEYWORD"); reflexivity.
Defined.

(** ** Cross-references *)

(** The index keeps the implementations of a keyword in the order of
    their registration. *)
Lemma get_implementations_register impl KWT :
  get_implementations (register impl KWT) (keyword impl)
  = (get_implementations KWT (keyword impl) ++ [impl])%list.
Proof.
  induction KWT as [|[k l] r IH]; simpl.
  - rewrite String.eqb_refl. reflexivity.
  - destruct (k =? keyword impl) eqn:E; simpl; rewrite E; auto.
Qed.

Lemma get_implementations_register_other impl KWT k :
  k <> keyword impl ->
  get_implementations (register impl KWT) k = get_implementations KWT k.
Proof.
  intros Hk. induction KWT as [|[k' l] r IH]; simpl.
  - destruct (String.eqb_spec (keyword impl) k); congruence.
  - destruct (String.eqb_spec k' (keyword impl)); simpl.
    + destruct (String.eqb_spec k' k); congruence.
    + destruct (k' =? k); auto.
Qed.

(** C7, as stated, fails: with [S1] and [S2] registered for [*SURFACE] the
    combo box of a reference to [*SURFACE] offers an empty item before the
    two names, and with nothing registered it offers the empty item and
    the placeholder, not an empty list. *)
Lemma candidates_are_not_exactly_the_names :
  let KWT := register (SURFACE "S2") (register (SURFACE "S1") []) in
  items (Combo_items KWT SURFACE_reference) = [""; "S1"; "S2"] /\
  items (Combo_items KWT SURFACE_reference)
    <> map impl_name (get_implementations KWT "*SURFACE") /\
  items (Combo_items [] SURFACE_reference)
    = [""; "!!! Create *SURFACE first !!!"] /\
  items (Combo_items [] SURFACE_reference) <> [].
Proof. repeat split; try reflexivity; discriminate. Qed.

Lemma items_addItems l c : items (addItems l c) = (items c ++ l)%list.
Proof. destruct l; simpl; [rewrite app_nil_r|]; reflexivity. Qed.

(** C7, amended: the combo box of an argument with a cross-reference
    offers an empty item, then the names of the implementations the index
    returns for the keyword, in the order of the index (that of their
    registration), or the placeholder [!!! Create K first !!!] when there
    is none, and last the values of [argument.value], if any. *)
Theorem Combo_offers_blank_then_names : forall KWT a,
  use a <> "" ->
  items (Combo_items KWT a)
  = ("" ::
     match map impl_name (get_implementations KWT (use a)) with
     | [] => [placeholder (use a)]
     | names => names
     end ++
     (if value a =? "" then [] else Py.split "|"%char (value a)))%list.
Proof.
  intros KWT a Hu. unfold Combo_items, placeholder.
  destruct (String.eqb_spec (use a) ""); [contradiction|]. simpl negb. cbv iota.
  destruct (value a =? ""); simpl negb; cbv iota;
    destruct (map impl_name (get_implementations KWT (use a)));
    rewrite ?items_addItems; simpl; rewrite ?app_nil_r; reflexivity.
Qed.

Lemma Combo_offers_blank_then_names_witness :
  items (Combo_items (register (SURFACE "S2") (register (SURFACE "S1") []))
           SURFACE_reference)
  = [""; "S1"; "S2"].
Proof.
  rewrite (Combo_offers_blank_then_names _ SURFACE_reference);
    [reflexivity | discriminate].
Defined.

(** ** A fresh session *)

Lemma construct_eq KWT cls a :
  construct KWT cls a =
  let leaf (w : Widget) :=
    l <- build_widgets_from KWT None (arguments a) ;;
    Some (set_arguments l (set_widget (Some w) a)) in
  match cls with
  | cls_Group => leaf (Group (name a) true false)
  | cls_HBox | cls_VBox => leaf (Box (newline a) true)
  | cls_HOr | cls_VOr =>
      l <- build_alternatives KWT true (arguments a) ;;
      Some (set_arguments l
              (set_widget
                 (Some (Or (newline a) true
                          (first_only (length (arguments a))))) a))
  | cls_Combo => leaf (Combo (ArgumentWidget_init a) (Combo_items KWT a))
  | cls_Text => leaf (Text (ArgumentWidget_init a) (Text_setText (value a)))
  | cls_Line | cls_Int | cls_Float =>
      leaf (Line (ArgumentWidget_init a) (value a))
  | cls_Bool => leaf (Bool (ArgumentWidget_init a) (required a))
  | cls_SelectFileWidget => leaf (SelectFileWidget (ArgumentWidget_init a) "")
  end.
Proof.
  destruct a as [nm fm us vl cm rq nl ro w l].
  assert (Hb : forall fv l,
    (fix loop (form_var : option string) (l : list Argument)
        : option (list Argument) :=
      match l with
      | [] => Some []
      | x :: r =>
          f <- select_form form_var x ;;
          c <- eval f ;;
          x' <- construct KWT c x ;;
          r' <- loop (select_form form_var x) r ;;
          Some (x' :: r')
      end) fv l = build_widgets_from KWT fv l).
  { intros fv l0; revert fv; induction l0 as [|x r IH]; intros fv; simpl;
      [reflexivity|].
    destruct (select_form fv x); [|reflexivity].
    destruct (eval s); [|reflexivity].
    destruct (construct KWT w0 x); [|reflexivity].
    rewrite IH. reflexivity. }
  assert (He : forall b l,
    (fix each (first : bool) (l : list Argument) : option (list Argument) :=
      match l with
      | [] => Some []
      | x :: r =>
          f <- select_form None x ;;
          c <- eval f ;;
          x' <- construct KWT c x ;;
          r' <- each false r ;;
          Some (widget_setEnabled first x' :: r')
      end) b l = build_alternatives KWT b l).
  { intros b l0; revert b; induction l0 as [|x r IH]; intros b; simpl;
      [reflexivity|].
    destruct (select_form None x); [|reflexivity].
    destruct (eval s); [|reflexivity].
    destruct (construct KWT w0 x); [|reflexivity].
    rewrite IH. reflexivity. }
  destruct cls; simpl; rewrite ?Hb, ?He; reflexivity.
Qed.

Lemma nodes_cons x r : nodes (x :: r) = (subtree x ++ nodes r)%list.
Proof. reflexivity. Qed.

Lemma subtree_eq a : subtree a = a :: nodes (arguments a).
Proof. destruct a; reflexivity. Qed.

Lemma nodes_set_widget w a :
  nodes (arguments (set_widget w a)) = nodes (arguments a).
Proof. reflexivity. Qed.

Lemma default_state_setEnabled b a :
  default_state a -> default_state (widget_setEnabled b a).
Proof.
  unfold default_state, widget_setEnabled; simpl.
  destruct (widget a) as [[]|]; simpl; auto.
Qed.

Lemma build_widgets_from_length KWT : forall l fv l',
  build_widgets_from KWT fv l = Some l' -> length l' = length l.
Proof.
  induction l as [|x r IH]; intros fv l' H; simpl in H.
  - injection H as <-. reflexivity.
  - destruct (select_form fv x); [|discriminate].
    destruct (eval s); [|discriminate].
    destruct (construct KWT w x); [|discriminate].
    destruct (build_widgets_from KWT _ r) eqn:E; [|discriminate].
    injection H as <-. simpl. f_equal. eauto.
Qed.

Lemma build_alternatives_length KWT : forall l b l',
  build_alternatives KWT b l = Some l' -> length l' = length l.
Proof.
  induction l as [|x r IH]; intros b l' H; simpl in H.
  - injection H as <-. reflexivity.
  - destruct (select_form None x); [|discriminate].
    destruct (eval s); [|discriminate].
    destruct (construct KWT w x); [|discriminate].
    destruct (build_alternatives KWT false r) eqn:E; [|discriminate].
    injection H as <-. simpl. f_equal. eauto.
Qed.

(** Every widget built by a constructor is in its default state. *)
Lemma construct_default_state KWT a : forall cls a',
  construct KWT cls a = Some a' ->
  Forall default_state (subtree a').
Proof.
  induction a as [nm fm us vl cm rq nl ro w l IH] using Argument_tree_ind.
  assert (Hb : forall fv l', build_widgets_from KWT fv l = Some l' ->
                             Forall default_state (nodes l')).
  { clear -IH. induction IH as [|x r Hx _ IHr]; intros fv l' H; simpl in H.
    - injection H as <-. constructor.
    - destruct (select_form fv x); [|discriminate].
      destruct (eval s); [|discriminate].
      destruct (construct KWT w x) eqn:Ex; [|discriminate].
      destruct (build_widgets_from KWT _ r) eqn:Er; [|discriminate].
      injection H as <-. rewrite nodes_cons.
      apply Forall_app. split.
      + eapply Hx; eassumption.
      + eapply IHr; eassumption. }
  assert (He : forall b l', build_alternatives KWT b l = Some l' ->
                            Forall default_state (nodes l')).
  { clear -IH. induction IH as [|x r Hx _ IHr]; intros b l' H; simpl in H.
    - injection H as <-. constructor.
    - destruct (select_form None x); [|discriminate].
      destruct (eval s); [|discriminate].
      destruct (construct KWT w x) eqn:Ex; [|discriminate].
      destruct (build_alternatives KWT false r) eqn:Er; [|discriminate].
      injection H as <-. rewrite nodes_cons.
      specialize (Hx _ _ Ex). rewrite subtree_eq in *.
      inversion Hx; subst. apply Forall_app. split.
      + constructor; [apply default_state_setEnabled|]; assumption.
      + eapply IHr; eassumption. }
  intros cls a' H. rewrite construct_eq in H. cbv zeta in H. simpl in H.
  destruct cls.
  all: try (destruct (build_widgets_from KWT None l) as [l'|] eqn:E;
            [|discriminate]; injection H as <-; rewrite subtree_eq;
            constructor; [unfold default_state; simpl; auto
                         |simpl; eapply Hb; eassumption]).
  all: destruct (build_alternatives KWT true l) as [l'|] eqn:E;
       [|discriminate]; injection H as <-; rewrite subtree_eq;
       constructor; [|simpl; eapply He; eassumption];
       unfold default_state; simpl;
       rewrite (build_alternatives_length _ _ _ _ E); reflexivity.
Qed.

(** C8, as stated, fails: the group of [OPTIONAL_WITH_REQUIRED] holds a
    required argument, and its group box is unchecked in the fresh
    session. *)
Lemma required_leaf_does_not_enable_its_group :
  exists item a nm en,
    new_session [] OPTIONAL_WITH_REQUIRED = Some item /\
    get_arguments item = [a] /\
    widget a = Some (Group nm en false) /\
    contains_required (arguments a) = true.
Proof. do 4 eexists. repeat split; reflexivity. Qed.

(** C8, amended: in a freshly created session every [Group] has its group
    box unchecked, whether or not a required argument is nested in it;
    every [Or] has the radio button of its first alternative checked and no
    other; a [Bool] is checked exactly when its argument is required. *)
Theorem fresh_session_default_state : forall KWT item item',
  new_session KWT item = Some item' ->
  Forall default_state (nodes (get_arguments item')).
Proof.
  intros KWT item item' H. unfold new_session, build_widgets in H.
  destruct (build_widgets_from KWT None (get_arguments item)) as [l'|] eqn:E;
    [|discriminate].
  injection H as <-. simpl.
  revert E. generalize (@None string). generalize (get_arguments item).
  intros l; revert l'. induction l as [|x r IH]; intros l' fv H; simpl in H.
  - injection H as <-. constructor.
  - destruct (select_form fv x); [|discriminate].
    destruct (eval s); [|discriminate].
    destruct (construct KWT w x) eqn:Ex; [|discriminate].
    destruct (build_widgets_from KWT _ r) eqn:Er; [|discriminate].
    injection H as <-. rewrite nodes_cons.
    apply Forall_app. split.
    + eapply construct_default_state; eassumption.
    + eapply IH; eassumption.
Qed.

Lemma fresh_session_default_state_witness :
  exists item,
    new_session [] OPTIONAL_WITH_REQUIRED = Some item /\
    Forall default_state (nodes (get_arguments item)).
Proof.
  eexists. split; [reflexivity|].
  apply (fresh_session_default_state [] OPTIONAL_WITH_REQUIRED). reflexivity.
Defined.

(** ** The alternatives of an [Or] *)

Lemma selected_from_one j : forall n s,
  s <= j < s + n ->
  selected_from s (map (fun i => Nat.eqb i j) (seq s n)) = [j].
Proof.
  induction n as [|n IH]; intros s H; [lia|]. simpl.
  destruct (Nat.eqb_spec s j) as [->|Hne].
  - simpl. f_equal.
    assert (Hz : forall m t, j < t ->
      selected_from t (map (fun i => Nat.eqb i j) (seq t m)) = []).
    { induction m as [|m IHm]; intros t Ht; simpl; [reflexivity|].
      destruct (Nat.eqb_spec t j); [lia|]. simpl. apply IHm. lia. }
    apply Hz. lia.
  - simpl. apply IH. lia.
Qed.

Lemma selected_first_only n : n <> 0 -> selected (first_only n) = [0].
Proof.
  intros Hn. unfold selected, first_only. apply selected_from_one. lia.
Qed.

Lemma flag_of_setEnabled b x w :
  widget x = Some w -> flag_of (widget_setEnabled b x) = Some b.
Proof.
  unfold flag_of, widget_setEnabled; simpl. intros ->. destruct w; reflexivity.
Qed.

Lemma nodes_setEnabled b x :
  nodes (arguments (widget_setEnabled b x)) = nodes (arguments x).
Proof. reflexivity. Qed.

Lemma exactly_one_setEnabled b x :
  exactly_one x -> exactly_one (widget_setEnabled b x).
Proof.
  unfold exactly_one, widget_setEnabled; simpl.
  destruct (widget x) as [[]|]; simpl; auto.
Qed.

Lemma construct_widget KWT cls a a' :
  construct KWT cls a = Some a' -> exists w, widget a' = Some w.
Proof.
  rewrite construct_eq. cbv zeta. intros H.
  destruct cls.
  all: try (destruct (build_widgets_from KWT None (arguments a));
            [|discriminate]; injection H as <-; simpl; eauto).
  all: destruct (build_alternatives KWT true (arguments a));
       [|discriminate]; injection H as <-; simpl; eauto.
Qed.

(** The alternatives that [Or.__init__] builds: the first one enabled,
    the others disabled. *)
Lemma build_alternatives_flags_false KWT : forall l l',
  build_alternatives KWT false l = Some l' ->
  map flag_of l' = map Some (repeat false (length l)).
Proof.
  induction l as [|x r IH]; intros l' H; simpl in H.
  - injection H as <-. reflexivity.
  - destruct (select_form None x); [|discriminate].
    destruct (eval s); [|discriminate].
    destruct (construct KWT w x) eqn:Ex; [|discriminate].
    destruct (build_alternatives KWT false r) eqn:Er; [|discriminate].
    injection H as <-. simpl.
    destruct (construct_widget _ _ _ _ Ex) as [w' Hw'].
    rewrite (flag_of_setEnabled _ _ _ Hw'). f_equal. auto.
Qed.

Lemma first_only_S n : first_only (S n) = true :: repeat false n.
Proof.
  unfold first_only. simpl. f_equal.
  assert (H : forall m s, map (fun i => Nat.eqb i 0) (seq (S s) m)
                          = repeat false m).
  { induction m as [|m IH]; intros s; simpl; [reflexivity|].
    f_equal. apply IH. }
  apply H.
Qed.

Lemma build_alternatives_flags KWT l l' :
  build_alternatives KWT true l = Some l' ->
  map flag_of l' = map Some (first_only (length l)).
Proof.
  destruct l as [|x r]; intros H; simpl in H.
  - injection H as <-. reflexivity.
  - destruct (select_form None x); [|discriminate].
    destruct (eval s); [|discriminate].
    destruct (construct KWT w x) eqn:Ex; [|discriminate].
    destruct (build_alternatives KWT false r) eqn:Er; [|discriminate].
    injection H as <-. simpl length. rewrite first_only_S. simpl.
    destruct (construct_widget _ _ _ _ Ex) as [w' Hw'].
    rewrite (flag_of_setEnabled _ _ _ Hw'). f_equal.
    apply (build_alternatives_flags_false KWT). assumption.
Qed.

Lemma built_Or_setEnabled b x : built_Or x -> built_Or (widget_setEnabled b x).
Proof.
  unfold built_Or, widget_setEnabled; simpl.
  destruct (widget x) as [[]|]; simpl; auto.
Qed.

Lemma construct_built_Or KWT a : forall cls a',
  construct KWT cls a = Some a' -> Forall built_Or (subtree a').
Proof.
  induction a as [nm fm us vl cm rq nl ro w l IH] using Argument_tree_ind.
  assert (Hb : forall fv l', build_widgets_from KWT fv l = Some l' ->
                             Forall built_Or (nodes l')).
  { clear -IH. induction IH as [|x r Hx _ IHr]; intros fv l' H; simpl in H.
    - injection H as <-. constructor.
    - destruct (select_form fv x); [|discriminate].
      destruct (eval s); [|discriminate].
      destruct (construct KWT w x) eqn:Ex; [|discriminate].
      destruct (build_widgets_from KWT _ r) eqn:Er; [|discriminate].
      injection H as <-. rewrite nodes_cons.
      apply Forall_app. split.
      + eapply Hx; eassumption.
      + eapply IHr; eassumption. }
  assert (He : forall b l', build_alternatives KWT b l = Some l' ->
                            Forall built_Or (nodes l')).
  { clear -IH. induction IH as [|x r Hx _ IHr]; intros b l' H; simpl in H.
    - injection H as <-. constructor.
    - destruct (select_form None x); [|discriminate].
      destruct (eval s); [|discriminate].
      destruct (construct KWT w x) eqn:Ex; [|discriminate].
      destruct (build_alternatives KWT false r) eqn:Er; [|discriminate].
      injection H as <-. rewrite nodes_cons.
      specialize (Hx _ _ Ex). rewrite subtree_eq in *.
      inversion Hx; subst. apply Forall_app. split.
      + constructor; [apply built_Or_setEnabled|]; assumption.
      + eapply IHr; eassumption. }
  intros cls a' H. rewrite construct_eq in H. cbv zeta in H. simpl in H.
  destruct cls.
  all: try (destruct (build_widgets_from KWT None l) as [l'|] eqn:E;
            [|discriminate]; injection H as <-; rewrite subtree_eq;
            constructor; [unfold built_Or; simpl; auto
                         |simpl; eapply Hb; eassumption]).
  all: destruct (build_alternatives KWT true l) as [l'|] eqn:E;
       [|discriminate]; injection H as <-; rewrite subtree_eq;
       constructor; [|simpl; eapply He; eassumption];
       unfold built_Or; simpl;
       split; [rewrite (build_alternatives_length _ _ _ _ E); reflexivity
              |apply (build_alternatives_flags _ _ _ E)].
Qed.

Lemma build_widgets_built_Or KWT : forall l fv l',
  build_widgets_from KWT fv l = Some l' -> Forall built_Or (nodes l').
Proof.
  induction l as [|x r IH]; intros fv l' H; simpl in H.
  - injection H as <-. constructor.
  - destruct (select_form fv x); [|discriminate].
    destruct (eval s); [|discriminate].
    destruct (construct KWT w x) eqn:Ex; [|discriminate].
    destruct (build_widgets_from KWT _ r) eqn:Er; [|discriminate].
    injection H as <-. rewrite nodes_cons.
    apply Forall_app. split.
    + eapply construct_built_Or; eassumption.
    + eapply IH; eassumption.
Qed.

(** *** Events keep the invariant *)

Section UpdateAt.

Variable f : Argument -> Argument.
Hypothesis f_flag : forall a, flag_of (f a) = flag_of a.
Hypothesis f_exactly_one : forall a,
  Forall exactly_one (subtree a) -> Forall exactly_one (subtree (f a)).

Lemma update_nth_exactly_one (g : Argument -> Argument) :
  (forall a, flag_of (g a) = flag_of a) ->
  (forall a, Forall exactly_one (subtree a) ->
             Forall exactly_one (subtree (g a))) ->
  forall i l,
    Forall exactly_one (nodes l) ->
    Forall exactly_one (nodes (update_nth i g l)) /\
    map flag_of (update_nth i g l) = map flag_of l.
Proof.
  intros Hflag Hone i l; revert i.
  induction l as [|x r IH]; intros i H; [destruct i; simpl; auto|].
  rewrite nodes_cons in H. apply Forall_app in H. destruct H as [Hx Hr].
  destruct i as [|i]; cbn [update_nth map].
  - rewrite nodes_cons, Hflag. split; [|reflexivity].
    apply Forall_app. auto.
  - destruct (IH i Hr) as [H1 H2].
    rewrite nodes_cons, H2. split; [|reflexivity].
    apply Forall_app. auto.
Qed.

Lemma update_at_exactly_one : forall path l,
  Forall exactly_one (nodes l) ->
  Forall exactly_one (nodes (update_at f path l)) /\
  map flag_of (update_at f path l) = map flag_of l.
Proof.
  induction path as [|i p IH]; intros l H; [simpl; auto|].
  destruct p as [|k p].
  - apply update_nth_exactly_one; auto.
  - change (update_at f (i :: k :: p) l)
      with (update_nth i
              (fun a => set_arguments (update_at f (k :: p) (arguments a)) a) l).
    apply update_nth_exactly_one; auto.
    intros a Ha. rewrite subtree_eq in *.
    inversion Ha as [|? ? Hone Hrest]; subst.
    destruct (IH (arguments a)) as [G1 G2]; [assumption|].
    constructor; [|exact G1].
    unfold exactly_one in *. unfold set_arguments at 1 2.
    cbn [widget arguments]. rewrite G2. assumption.
Qed.

End UpdateAt.

Lemma toggle_alternatives_flags j : forall l i rb,
  map flag_of l = map Some rb ->
  map flag_of (toggle_alternatives j i rb l)
  = map Some (map (fun k => Nat.eqb k j) (seq i (length rb))).
Proof.
  induction l as [|x r IH]; intros i rb H; destruct rb as [|b rb];
    simpl in *; try discriminate; [reflexivity|].
  injection H as Hx Hr. f_equal; [|apply IH; assumption].
  destruct (Bool.eqb b (Nat.eqb i j)) eqn:E.
  - apply Bool.eqb_prop in E. congruence.
  - unfold flag_of in Hx. destruct (widget x) as [w|] eqn:Hw; [|discriminate].
    apply (flag_of_setEnabled _ _ _ Hw).
Qed.

Lemma toggle_alternatives_nodes j : forall l i rb,
  Forall exactly_one (nodes l) ->
  Forall exactly_one (nodes (toggle_alternatives j i rb l)).
Proof.
  induction l as [|x r IH]; intros i rb H; simpl; [constructor|].
  rewrite nodes_cons in *. apply Forall_app in H. destruct H as [Hx Hr].
  apply Forall_app. split; [|apply IH; assumption].
  destruct rb as [|b rb]; [assumption|].
  destruct (Bool.eqb b (Nat.eqb i j)); [assumption|].
  rewrite subtree_eq in *. inversion Hx; subst.
  constructor; [apply exactly_one_setEnabled|]; assumption.
Qed.

Lemma nth_false_lt (j : nat) (l : list bool) :
  nth j l true = false -> j < length l.
Proof.
  revert j; induction l as [|b l IH]; intros [|j] H; simpl in *;
    try discriminate; try lia.
  apply IH in H. lia.
Qed.

Lemma click_flag j a : flag_of (click j a) = flag_of a.
Proof.
  unfold click. destruct (widget a) as [[]|] eqn:Hw; try reflexivity.
  destruct (nth j rb true); [reflexivity|].
  unfold flag_of; simpl. rewrite Hw. reflexivity.
Qed.

Lemma click_exactly_one j a :
  Forall exactly_one (subtree a) -> Forall exactly_one (subtree (click j a)).
Proof.
  intros H. unfold click.
  destruct (widget a) as [[]|] eqn:Hw; try assumption.
  destruct (nth j rb true) eqn:Hj; [assumption|].
  apply nth_false_lt in Hj.
  rewrite subtree_eq in *. inversion H as [|? ? Ha Hn]; subst.
  unfold exactly_one in Ha. rewrite Hw in Ha. destruct Ha as [_ Hf].
  constructor.
  - unfold exactly_one; simpl. split.
    + exists j. apply selected_from_one. lia.
    + apply toggle_alternatives_flags. assumption.
  - simpl. apply toggle_alternatives_nodes. assumption.
Qed.

Lemma setChecked_flag b a : flag_of (setChecked b a) = flag_of a.
Proof.
  unfold setChecked, flag_of.
  destruct (widget a) as [[]|] eqn:Hw; simpl; rewrite ?Hw; reflexivity.
Qed.

Lemma setText_flag s a : flag_of (setText s a) = flag_of a.
Proof.
  unfold setText, flag_of.
  destruct (widget a) as [[]|] eqn:Hw; simpl; rewrite ?Hw; reflexivity.
Qed.

Lemma setCurrentIndex_flag i a : flag_of (setCurrentIndex i a) = flag_of a.
Proof.
  unfold setCurrentIndex, flag_of.
  destruct (widget a) as [[]|] eqn:Hw; simpl; rewrite ?Hw; reflexivity.
Qed.

Lemma setChecked_exactly_one b a :
  Forall exactly_one (subtree a) ->
  Forall exactly_one (subtree (setChecked b a)).
Proof.
  intros H. unfold setChecked.
  destruct (widget a) as [[]|] eqn:Hw; try assumption;
    rewrite subtree_eq in *; inversion H; subst;
    constructor; try assumption; exact I.
Qed.

Lemma setText_exactly_one s a :
  Forall exactly_one (subtree a) ->
  Forall exactly_one (subtree (setText s a)).
Proof.
  intros H. unfold setText.
  destruct (widget a) as [[]|] eqn:Hw; try assumption;
    rewrite subtree_eq in *; inversion H; subst;
    constructor; try assumption; exact I.
Qed.

Lemma setCurrentIndex_exactly_one i a :
  Forall exactly_one (subtree a) ->
  Forall exactly_one (subtree (setCurrentIndex i a)).
Proof.
  intros H. unfold setCurrentIndex.
  destruct (widget a) as [[]|] eqn:Hw; try assumption;
    rewrite subtree_eq in *; inversion H; subst;
    constructor; try assumption; exact I.
Qed.

Lemma w_enabled_label i self :
  w_enabled (label_setCurrentIndex i self) = w_enabled self.
Proof.
  unfold label_setCurrentIndex. destruct (self_label self) as [[]|]; reflexivity.
Qed.

Lemma setLabel_flag i a : flag_of (setLabel i a) = flag_of a.
Proof.
  unfold setLabel, flag_of.
  destruct (widget a) as [[]|] eqn:Hw; simpl; rewrite ?Hw, ?w_enabled_label;
    reflexivity.
Qed.

Lemma setLabel_exactly_one i a :
  Forall exactly_one (subtree a) ->
  Forall exactly_one (subtree (setLabel i a)).
Proof.
  intros H. unfold setLabel.
  destruct (widget a) as [[]|] eqn:Hw; try assumption;
    rewrite subtree_eq in *; inversion H; subst;
    constructor; try assumption; exact I.
Qed.

Lemma apply_event_exactly_one e l :
  Forall exactly_one (nodes l) -> Forall exactly_one (nodes (apply_event e l)).
Proof.
  intros H. destruct e; simpl; apply update_at_exactly_one;
    auto using click_flag, click_exactly_one, setChecked_flag,
      setChecked_exactly_one, setText_flag, setText_exactly_one,
      setCurrentIndex_flag, setCurrentIndex_exactly_one, setLabel_flag,
      setLabel_exactly_one.
Qed.

Lemma after_exactly_one h : forall l,
  Forall exactly_one (nodes l) -> Forall exactly_one (nodes (after h l)).
Proof.
  induction h as [|e h IH]; intros l H; simpl; [assumption|].
  apply IH. apply apply_event_exactly_one. assumption.
Qed.

(** C6: in a session freshly created on a keyword, every [Or] that has at
    least one alternative has the radio button of its first alternative
    checked and no other; and after any sequence of events (clicks on the
    radio buttons of any [Or], and edits of the other controls) every [Or]
    has exactly one radio button checked, the widget of each alternative
    being enabled exactly when its button is checked. *)
Theorem Or_has_exactly_one_alternative : forall KWT item item' h,
  new_session KWT item = Some item' ->
  Forall alternatives_exist (nodes (get_arguments item')) ->
  Forall first_selected (nodes (get_arguments item')) /\
  Forall exactly_one (nodes (after h (get_arguments item'))).
Proof.
  intros KWT item item' h Hnew Hex.
  assert (Hb : Forall built_Or (nodes (get_arguments item'))).
  { unfold new_session, build_widgets in Hnew.
    destruct (build_widgets_from KWT None (get_arguments item)) eqn:E;
      [|discriminate].
    injection Hnew as <-. simpl. eapply build_widgets_built_Or; eassumption. }
  assert (H0 : Forall (fun a => first_selected a /\ exactly_one a)
                 (nodes (get_arguments item'))).
  { rewrite Forall_forall in *. intros a Ha.
    specialize (Hb a Ha). specialize (Hex a Ha).
    unfold built_Or, alternatives_exist, first_selected, exactly_one in *.
    destruct (widget a) as [[]|]; auto.
    destruct Hb as [-> Hf].
    assert (Hs : selected (first_only (length (arguments a))) = [0]).
    { apply selected_first_only. destruct (arguments a); simpl; congruence. }
    split; [exact Hs|]. split; [exists 0; exact Hs|exact Hf]. }
  split.
  - eapply Forall_impl; [|exact H0]. intros a [H _]; exact H.
  - apply after_exactly_one.
    eapply Forall_impl; [|exact H0]. intros a [_ H]; exact H.
Qed.

Lemma Or_has_exactly_one_alternative_witness :
  exists item,
    new_session [] NESTED_OR = Some item /\
    Forall first_selected (nodes (get_arguments item)) /\
    Forall exactly_one
      (nodes (after [Toggle [0] true; Click [0; 0] 1; Click [0; 0] 1;
                     Click [0; 0] 0]
                (get_arguments item))).
Proof.
  eexists. split; [reflexivity|].
  apply (Or_has_exactly_one_alternative [] NESTED_OR); [reflexivity|].
  repeat constructor; simpl; discriminate.
Defined.

(** ** Generation as a function of the session *)

Lemma text_labelled en w :
  labelled_widget w -> exists v, text en w = Some v.
Proof.
  destruct w; simpl; eauto.
  unfold Bool_text. intros H.
  destruct (self_label self); [|contradiction].
  destruct (en && w_enabled self && checked); eauto.
Qed.

Lemma change_argument_total a : forall pe T,
  Forall labelled (subtree a) -> exists T', change_argument pe a T = Some T'.
Proof.
  induction a as [nm fm us vl cm rq nl ro w l IH] using Argument_tree_ind.
  intros pe T H. rewrite subtree_eq in H. inversion H as [|? ? Ha Hl]; subst.
  rewrite change_argument_eq. simpl in *.
  destruct w as [w|]; [|eauto].
  assert (Ht : exists v, (if isEnabled pe w then text (isEnabled pe w) w
                          else Some "") = Some v).
  { destruct (isEnabled pe w); [|eauto]. apply text_labelled. exact Ha. }
  destruct Ht as [v ->].
  generalize (append_value T v). generalize (children_enabled pe w).
  clear -IH Hl. induction IH as [|x r Hx _ IHr]; intros pe T; simpl; [eauto|].
  rewrite nodes_cons in Hl. apply Forall_app in Hl. destruct Hl as [H1 H2].
  destruct (Hx pe T H1) as [T' ->]. apply IHr. assumption.
Qed.

Lemma change_arguments_total l : forall pe T,
  Forall labelled (nodes l) -> exists T', change_arguments pe l T = Some T'.
Proof.
  induction l as [|x r IH]; intros pe T H; simpl; [eauto|].
  rewrite nodes_cons in H. apply Forall_app in H. destruct H as [H1 H2].
  destruct (change_argument_total x pe T H1) as [T' ->]. apply IH. assumption.
Qed.

(** The call [change(data)] made by the signals. *)
Lemma change_top item before :
  change item [] false before =
  match itype item with
  | KEYWORD => change_arguments true (get_arguments item) (item_name item)
  | IMPLEMENTATION => Some ""
  end.
Proof.
  unfold change. destruct (itype item); [|reflexivity].
  destruct (get_arguments item); reflexivity.
Qed.

(** The slot [change] overwrites the text edit: what it showed before has
    no influence on the result, an exception included. *)
Lemma change_ignores_previous_text item t1 t2 :
  change item [] false t1 = change item [] false t2.
Proof. rewrite !change_top. reflexivity. Qed.








(** ** Required fields *)

Lemma accept_argument_eq pe a ok :
  accept_argument pe a ok =
  (r <- check_required pe a ;;
   match r with
   | Some msg => Some ([msg], inl false)
   | None =>
       if ok then
         s <- accept_arguments (children_pe pe a) (arguments a) true [] ;;
         Some (fst s, inr (snd s))
       else Some ([], inr false)
   end).
Proof.
  destruct a as [nm fm us vl cm rq nl ro w l]; simpl.
  destruct (check_required pe _) as [[msg|]|]; try reflexivity.
  destruct ok; [|reflexivity].
  generalize (children_pe pe (mkArgument nm fm us vl cm rq nl ro w l)).
  intros pe'. generalize true. generalize (@nil string).
  induction l as [|x r IH]; intros shown ok; simpl; [reflexivity|].
  destruct (accept_argument pe' x ok) as [[m [b|ok']]|]; try reflexivity.
  apply IH.
Qed.

Lemma visit_eq pe a :
  visit pe a = (pe, a) :: visits (children_pe pe a) (arguments a).
Proof. destruct a; reflexivity. Qed.

Lemma visits_cons pe x r : visits pe (x :: r) = (visit pe x ++ visits pe r)%list.
Proof. reflexivity. Qed.



Lemma accept_arguments_sound l :
  Forall accept_sound l ->
  forall pe ok shown s b,
    accept_arguments pe l ok shown = Some (s, b) ->
    exists m, s = (shown ++ m)%list /\
      (b = true -> ok = true /\ m = [] /\ Forall filled (visits pe l)) /\
      (b = false -> ok = false \/ m <> []) /\
      Forall (fun msg => Exists (unfilled msg) (visits pe l)) m.
Proof.
  induction 1 as [|x r Hx _ IH]; intros pe ok shown s b H; simpl in H.
  - injection H as <- <-. exists []. rewrite app_nil_r.
    repeat split; auto; constructor.
  - destruct (accept_argument pe x ok) as [[m1 r1]|] eqn:E; [|discriminate].
    destruct (Hx _ _ _ _ E) as (Ht & Hf & Hl & Hm).
    assert (Hm' : Forall (fun msg => Exists (unfilled msg)
                                      (visits pe (x :: r))) m1).
    { eapply Forall_impl; [|exact Hm]. intros msg Hx'.
      rewrite visits_cons. apply Exists_app. auto. }
    destruct r1 as [b1|ok'].
    + injection H as <- <-. destruct (Hl b1 eq_refl) as [-> Hne].
      exists m1. repeat split; auto; discriminate.
    + destruct (IH _ _ _ _ _ H) as (m2 & -> & Ht2 & Hf2 & Hm2).
      exists (m1 ++ m2)%list. rewrite app_assoc. split; [reflexivity|].
      split; [|split].
      * intros ->. destruct (Ht2 eq_refl) as (-> & -> & Hr).
        destruct (Ht eq_refl) as (-> & -> & Hxf).
        repeat split; auto. rewrite visits_cons. apply Forall_app; auto.
      * intros ->. destruct (Hf2 eq_refl) as [->|Hne].
        -- destruct Hf as [Hf|Hf]; [discriminate|auto|].
           right. destruct m1; [congruence|discriminate].
        -- right. destruct m1; [assumption|discriminate].
      * apply Forall_app. split; [assumption|].
        eapply Forall_impl; [|exact Hm2]. intros msg Hx'.
        rewrite visits_cons. apply Exists_app. auto.
Qed.

Lemma accept_argument_sound a : accept_sound a.
Proof.
  induction a as [nm fm us vl cm rq nl ro w l IH] using Argument_tree_ind.
  intros pe ok m r H. rewrite accept_argument_eq in H. rewrite visit_eq.
  destruct (check_required pe _) as [[msg|]|] eqn:Ec; [| |discriminate].
  - injection H as <- <-. split; [|split; [|split]].
    + discriminate.
    + intros _. right. discriminate.
    + intros b Hb. injection Hb as <-. split; [reflexivity|discriminate].
    + constructor; [|constructor]. apply Exists_cons_hd. exact Ec.
  - cbn [arguments] in *. destruct ok.
    + destruct (accept_arguments _ _ true []) as [[s b]|] eqn:Ea;
        [|discriminate].
      injection H as <- <-.
      destruct (accept_arguments_sound _ IH _ _ _ _ _ Ea)
        as (m' & -> & Ht & Hf & Hm). simpl.
      split; [|split; [|split]].
      * intros Hb. injection Hb as ->.
        destruct (Ht eq_refl) as (_ & -> & Hr).
        repeat split. constructor; [exact Ec|exact Hr].
      * intros Hne. destruct b; [congruence|].
        destruct (Hf eq_refl); [discriminate|auto].
      * discriminate.
      * eapply Forall_impl; [|exact Hm]. intros msg Hx.
        apply Exists_cons_tl. exact Hx.
    + injection H as <- <-. split; [|split; [|split]].
      * discriminate.
      * auto.
      * discriminate.
      * constructor.
Qed.


(** A required leaf other than a file selector passes the check only
    when it is enabled, its parent too, and it holds a value. *)
Lemma check_required_filled pe a w :
  widget a = Some w -> w_required w = true -> is_SelectFileWidget w = false ->
  check_required pe a = Some None ->
  pe = true /\ leaf_off w = false.
Proof.
  intros Hw Hr Hs H. unfold check_required in H. rewrite Hw, Hr in H.
  destruct (text (isEnabled pe w) w) as [v|] eqn:Ev; [|discriminate].
  destruct (String.eqb_spec v ""); [discriminate|].
  assert (Hv : pe = false \/ leaf_off w = true -> v = "").
  { intros Hoff.
    destruct w; simpl in *; try discriminate; injection Ev as <- || idtac.
    - destruct Hoff as [->|Hoff];
        [destruct (w_enabled self); reflexivity
        |apply ArgumentWidget_text_off; assumption].
    - destruct Hoff as [->|Hoff];
        [destruct (w_enabled self); reflexivity
        |apply ArgumentWidget_text_off; assumption].
    - destruct Hoff as [->|Hoff];
        [destruct (w_enabled self); reflexivity
        |apply ArgumentWidget_text_off; assumption].
    - unfold Bool_text in Ev.
      destruct Hoff as [->|Hoff].
      + simpl in Ev. congruence.
      + destruct pe, (w_enabled self), checked; simpl in *;
          try discriminate; congruence. }
  destruct pe.
  - split; [reflexivity|].
    destruct (leaf_off w); [|reflexivity]. exfalso; auto.
  - exfalso; auto.
Qed.


(** ** Separators at the start of a line *)

Lemma prefix_cons a p c s :
  String.prefix (String a p) (String c s)
  = if ascii_dec a c then String.prefix p s else false.
Proof. reflexivity. Qed.

Lemma prefix_empty s : String.prefix "" s = true.
Proof. destruct s; reflexivity. Qed.

Lemma startswith_char a s :
  Py.startswith s (String a "") =
  match s with
  | EmptyString => false
  | String c _ => Ascii.eqb c a
  end.
Proof.
  unfold Py.startswith. destruct s as [|c s]; [reflexivity|].
  rewrite prefix_cons, prefix_empty.
  destruct (ascii_dec a c) as [<-|H]; [symmetry; apply Ascii.eqb_refl|].
  symmetry. apply Ascii.eqb_neq. congruence.
Qed.

Lemma startswith_comma s :
  Py.startswith s "," =
  match s with
  | EmptyString => false
  | String c _ => Ascii.eqb c Py.comma
  end.
Proof. apply startswith_char. Qed.





















Section Rendered.

Variable rendered : string -> string.






End Rendered.




(** * Properties of the rest of the dialog *)

(** ** [reset] *)

Lemma reset_argument_eq a :
  reset_argument a =
  match widget a with
  | None => a
  | Some (Group nm en _) =>
      set_arguments (reset (arguments a))
        (set_widget (Some (Group nm en false)) a)
  | Some (Box _ _) | Some (Or _ _ _) => set_arguments (reset (arguments a)) a
  | Some (Combo self c) =>
      set_widget (Some (Combo self (QComboBox_setCurrentIndex 0 c))) a
  | Some (Text self _) =>
      set_widget (Some (Text self (Text_setText (value a)))) a
  | Some (Line self _) => set_widget (Some (Line self (value a))) a
  | Some (Bool self _) => set_widget (Some (Bool self (required a))) a
  | Some (SelectFileWidget self _) =>
      set_widget (Some (SelectFileWidget self (value a))) a
  end.
Proof. destruct a as [nm fm us vl cm rq nl ro [[]|] l]; reflexivity. Qed.

Lemma set_arguments_same a : set_arguments (arguments a) a = a.
Proof. destruct a; reflexivity. Qed.

Lemma reset_cons x r : reset (x :: r) = reset_argument x :: reset r.
Proof. reflexivity. Qed.

Lemma reset_argument_twice a :
  reset_argument (reset_argument a) = reset_argument a.
Proof.
  induction a as [nm fm us vl cm rq nl ro w l IH] using Argument_tree_ind.
  assert (Hl : reset (reset l) = reset l).
  { induction IH as [|x r Hx _ IHr]; [reflexivity|].
    rewrite !reset_cons, Hx, IHr. reflexivity. }
  destruct w as [[]|]; rewrite (reset_argument_eq (mkArgument _ _ _ _ _ _ _ _ _ _));
    cbn [widget arguments value required];
    rewrite reset_argument_eq; unfold set_arguments, set_widget;
    cbn [widget arguments value required name form use comment newline
         readonly]; rewrite ?Hl; reflexivity.
Qed.

(** X2: resetting twice is the same as resetting once. *)
Theorem reset_idempotent : forall l, reset (reset l) = reset l.
Proof.
  induction l as [|x r IH]; [reflexivity|].
  rewrite !reset_cons, reset_argument_twice, IH. reflexivity.
Qed.

Lemma nodes_app l1 l2 : nodes (l1 ++ l2) = (nodes l1 ++ nodes l2)%list.
Proof. unfold nodes. apply flat_map_app. Qed.

Lemma reset_argument_keeps a :
  selection (reset_argument a) = selection a /\
  flag_of (reset_argument a) = flag_of a.
Proof.
  rewrite reset_argument_eq. unfold selection, flag_of.
  destruct a as [nm fm us vl cm rq nl ro [[]|] l]; split; reflexivity.
Qed.

Lemma reset_argument_keeps_subtree a :
  map (fun x => (selection x, flag_of x)) (subtree (reset_argument a))
  = map (fun x => (selection x, flag_of x)) (subtree a).
Proof.
  induction a as [nm fm us vl cm rq nl ro w l IH] using Argument_tree_ind.
  assert (Hl : map (fun x => (selection x, flag_of x)) (nodes (reset l))
               = map (fun x => (selection x, flag_of x)) (nodes l)).
  { induction IH as [|x r Hx _ IHr]; [reflexivity|].
    rewrite reset_cons, !nodes_cons, !map_app, Hx, IHr. reflexivity. }
  rewrite !subtree_eq. cbn [map].
  destruct (reset_argument_keeps (mkArgument nm fm us vl cm rq nl ro w l))
    as [-> ->].
  f_equal. rewrite reset_argument_eq.
  destruct w as [[]|]; cbn [widget arguments set_arguments set_widget];
    try reflexivity; exact Hl.
Qed.

(** X3: [reset] leaves the radio buttons of every [Or] and the enabled
    flag of every widget as they are: the selected alternative does not
    go back to the first one. *)
Theorem reset_keeps_the_selection : forall l,
  map (fun x => (selection x, flag_of x)) (nodes (reset l))
  = map (fun x => (selection x, flag_of x)) (nodes l).
Proof.
  induction l as [|x r IH]; [reflexivity|].
  rewrite reset_cons, !nodes_cons, !map_app, reset_argument_keeps_subtree, IH.
  reflexivity.
Qed.

(** *** [reset] after edits *)

Lemma reset_setChecked b a : reset_argument (setChecked b a) = reset_argument a.
Proof. destruct a as [nm fm us vl cm rq nl ro [[]|] l]; reflexivity. Qed.

Lemma reset_setText s a : reset_argument (setText s a) = reset_argument a.
Proof. destruct a as [nm fm us vl cm rq nl ro [[]|] l]; reflexivity. Qed.

Lemma reset_setCurrentIndex i a :
  reset_argument (setCurrentIndex i a) = reset_argument a.
Proof. destruct a as [nm fm us vl cm rq nl ro [[]|] l]; reflexivity. Qed.

Lemma update_nth_nil {A : Type} i (f : A -> A) : update_nth i f [] = [].
Proof. destruct i; reflexivity. Qed.

Lemma update_at_nil f path : update_at f path [] = [].
Proof.
  destruct path as [|i [|k p]]; [reflexivity| |]; apply update_nth_nil.
Qed.

Lemma map_update_nth {A B : Type} (h : A -> B) (g : A -> A) (P : A -> Prop) :
  (forall a, P a -> h (g a) = h a) ->
  forall i l, Forall P l -> map h (update_nth i g l) = map h l.
Proof.
  intros Hg i l; revert i. induction l as [|x r IH]; intros i H;
    [rewrite update_nth_nil; reflexivity|].
  inversion H; subst. destruct i as [|i]; cbn [update_nth map].
  - rewrite Hg by assumption. reflexivity.
  - rewrite IH by assumption. reflexivity.
Qed.

Lemma Forall_subtree_head (P : Argument -> Prop) l :
  Forall P (nodes l) ->
  Forall (fun a => P a /\ Forall P (nodes (arguments a))) l.
Proof.
  induction l as [|x r IH]; intros H; [constructor|].
  rewrite nodes_cons, subtree_eq in H. inversion H as [|? ? Hx Hr]; subst.
  apply Forall_app in Hr. destruct Hr as [H1 H2].
  constructor; auto.
Qed.

Section ResetUpdate.

Variable f : Argument -> Argument.
Hypothesis reset_f : forall a, reset_argument (f a) = reset_argument a.

Lemma reset_update_at : forall path l,
  Forall flat_leaf (nodes l) -> reset (update_at f path l) = reset l.
Proof.
  induction path as [|i p IH]; intros l H; [reflexivity|].
  destruct p as [|k p].
  - apply (map_update_nth reset_argument f (fun _ => True)); [auto|].
    apply Forall_forall. auto.
  - change (update_at f (i :: k :: p) l)
      with (update_nth i
              (fun a => set_arguments (update_at f (k :: p) (arguments a)) a) l).
    apply (map_update_nth reset_argument _
             (fun a => flat_leaf a /\ Forall flat_leaf (nodes (arguments a))));
      [|apply Forall_subtree_head; assumption].
    intros a [Ha Hn]. specialize (IH (arguments a) Hn).
    rewrite (reset_argument_eq a), reset_argument_eq.
    unfold flat_leaf in Ha.
    destruct a as [nm fm us vl cm rq nl ro [[]|] l0];
      cbn [widget arguments set_arguments set_widget value required name form
           use comment newline readonly] in *;
      rewrite ?IH; try reflexivity;
      subst l0; rewrite update_at_nil; reflexivity.
Qed.

End ResetUpdate.

Section FlatUpdate.

Variable f : Argument -> Argument.
Hypothesis f_arguments : forall a, arguments (f a) = arguments a.
Hypothesis f_flat : forall a, flat_leaf a -> flat_leaf (f a).

Lemma flat_update_nth (g : Argument -> Argument) :
  (forall a, Forall flat_leaf (subtree a) -> Forall flat_leaf (subtree (g a))) ->
  forall i l, Forall flat_leaf (nodes l) ->
              Forall flat_leaf (nodes (update_nth i g l)).
Proof.
  intros Hg i l; revert i. induction l as [|x r IH]; intros i H;
    [rewrite update_nth_nil; assumption|].
  rewrite nodes_cons in H. apply Forall_app in H. destruct H as [H1 H2].
  destruct i as [|i]; cbn [update_nth]; rewrite nodes_cons;
    apply Forall_app; auto.
Qed.

Lemma flat_update_at : forall path l,
  Forall flat_leaf (nodes l) -> Forall flat_leaf (nodes (update_at f path l)).
Proof.
  induction path as [|i p IH]; intros l H; [assumption|].
  destruct p as [|k p].
  - apply flat_update_nth; [|assumption].
    intros a Ha. rewrite subtree_eq in *. inversion Ha; subst.
    rewrite f_arguments. constructor; auto.
  - change (update_at f (i :: k :: p) l)
      with (update_nth i
              (fun a => set_arguments (update_at f (k :: p) (arguments a)) a) l).
    apply flat_update_nth; [|assumption].
    intros a Ha. rewrite subtree_eq in *.
    inversion Ha as [|? ? Hh Ht]; subst.
    constructor; [|apply IH; exact Ht].
    unfold flat_leaf in *.
    destruct a as [nm fm us vl cm rq nl ro [[]|] l0];
      cbn [widget arguments set_arguments] in *; auto;
      subst l0; apply update_at_nil.
Qed.

End FlatUpdate.

Lemma setChecked_arguments b a : arguments (setChecked b a) = arguments a.
Proof. destruct a as [nm fm us vl cm rq nl ro [[]|] l]; reflexivity. Qed.

Lemma setText_arguments s a : arguments (setText s a) = arguments a.
Proof. destruct a as [nm fm us vl cm rq nl ro [[]|] l]; reflexivity. Qed.

Lemma setCurrentIndex_arguments i a :
  arguments (setCurrentIndex i a) = arguments a.
Proof. destruct a as [nm fm us vl cm rq nl ro [[]|] l]; reflexivity. Qed.

Lemma setChecked_flat b a : flat_leaf a -> flat_leaf (setChecked b a).
Proof. destruct a as [nm fm us vl cm rq nl ro [[]|] l]; auto. Qed.

Lemma setText_flat s a : flat_leaf a -> flat_leaf (setText s a).
Proof. destruct a as [nm fm us vl cm rq nl ro [[]|] l]; auto. Qed.

Lemma setCurrentIndex_flat i a : flat_leaf a -> flat_leaf (setCurrentIndex i a).
Proof. destruct a as [nm fm us vl cm rq nl ro [[]|] l]; auto. Qed.

Lemma reset_after_edits : forall h l,
  Forall flat_leaf (nodes l) ->
  forallb is_edit h = true ->
  reset (after h l) = reset l.
Proof.
  induction h as [|e h IH]; intros l Hl Hh; [reflexivity|].
  simpl in Hh. apply andb_true_iff in Hh. destruct Hh as [He Hh].
  cbn [after fold_left]. change (fold_left _ h ?x) with (after h x).
  destruct e as [path j|path b|path s|path i|path i];
    [discriminate| | | |discriminate]; cbn [apply_event].
  - rewrite IH; [apply reset_update_at; [apply reset_setChecked|assumption]
                | |assumption].
    apply flat_update_at;
      auto using setChecked_arguments, setChecked_flat.
  - rewrite IH; [apply reset_update_at; [apply reset_setText|assumption]
                | |assumption].
    apply flat_update_at; auto using setText_arguments, setText_flat.
  - rewrite IH; [apply reset_update_at;
                   [apply reset_setCurrentIndex|assumption]
                | |assumption].
    apply flat_update_at;
      auto using setCurrentIndex_arguments, setCurrentIndex_flat.
Qed.

(** X4: in a session whose leaves have no nested arguments, [reset]
    undoes every history made of these events only: a group box or a check
    box is checked or unchecked, the text of a text control is replaced, an
    item of a combo box is chosen.  The widgets are reset to the same state
    as if nothing had been edited.  (A click on a radio button and a choice
    in the label of a name with alternatives are no such events: no [reset]
    method touches the radio buttons or the labels.) *)
Theorem reset_undoes_the_edits : forall h l,
  Forall flat_leaf (nodes l) ->
  forallb is_edit h = true ->
  reset (after h l) = reset l.
Proof. exact reset_after_edits. Qed.

(** *** [reset] on a fresh session *)

Lemma first_is_current_addItems l c :
  first_is_current c -> first_is_current (addItems l c).
Proof.
  unfold first_is_current, addItems. intros H.
  destruct l as [|x l]; [assumption|]. cbn [items currentIndex].
  rewrite H. destruct (items c); reflexivity.
Qed.

Lemma first_is_current_Combo_items KWT a :
  first_is_current (Combo_items KWT a).
Proof.
  unfold Combo_items.
  assert (H0 : first_is_current new_QComboBox) by reflexivity.
  destruct (negb (use a =? "")), (negb (value a =? ""));
    try destruct (map impl_name (get_implementations KWT (use a)));
    repeat apply first_is_current_addItems; assumption.
Qed.

Lemma setCurrentIndex_first c :
  first_is_current c -> QComboBox_setCurrentIndex 0 c = c.
Proof.
  unfold first_is_current, QComboBox_setCurrentIndex.
  destruct c as [its i]; cbn [items currentIndex]. intros ->.
  destruct its; reflexivity.
Qed.

Lemma reset_widget_setEnabled b a :
  reset_argument (widget_setEnabled b a)
  = widget_setEnabled b (reset_argument a).
Proof.
  rewrite (reset_argument_eq a), reset_argument_eq.
  destruct a as [nm fm us vl cm rq nl ro [[]|] l]; reflexivity.
Qed.

Lemma no_initial_file_setEnabled b a :
  no_initial_file (widget_setEnabled b a) <-> no_initial_file a.
Proof.
  destruct a as [nm fm us vl cm rq nl ro [[]|] l]; reflexivity.
Qed.

Lemma construct_reset KWT a : forall cls a',
  construct KWT cls a = Some a' ->
  Forall no_initial_file (subtree a') ->
  reset_argument a' = a'.
Proof.
  induction a as [nm fm us vl cm rq nl ro w l IH] using Argument_tree_ind.
  assert (Hb : forall fv l', build_widgets_from KWT fv l = Some l' ->
                 Forall no_initial_file (nodes l') -> reset l' = l').
  { clear -IH. induction IH as [|x r Hx _ IHr]; intros fv l' H Hn;
      simpl in H.
    - injection H as <-. reflexivity.
    - destruct (select_form fv x); [|discriminate].
      destruct (eval s); [|discriminate].
      destruct (construct KWT w x) eqn:Ex; [|discriminate].
      destruct (build_widgets_from KWT _ r) eqn:Er; [|discriminate].
      injection H as <-. rewrite nodes_cons in Hn.
      apply Forall_app in Hn. destruct Hn as [H1 H2].
      rewrite reset_cons, (Hx _ _ Ex H1), (IHr _ _ Er H2). reflexivity. }
  assert (He : forall b l', build_alternatives KWT b l = Some l' ->
                 Forall no_initial_file (nodes l') -> reset l' = l').
  { clear -IH. induction IH as [|x r Hx _ IHr]; intros b l' H Hn;
      simpl in H.
    - injection H as <-. reflexivity.
    - destruct (select_form None x); [|discriminate].
      destruct (eval s); [|discriminate].
      destruct (construct KWT w x) eqn:Ex; [|discriminate].
      destruct (build_alternatives KWT false r) eqn:Er; [|discriminate].
      injection H as <-. rewrite nodes_cons in Hn.
      apply Forall_app in Hn. destruct Hn as [H1 H2].
      rewrite reset_cons, reset_widget_setEnabled, (IHr _ _ Er H2).
      rewrite (Hx _ _ Ex); [reflexivity|].
      rewrite subtree_eq in *. inversion H1 as [|? ? Hh Ht]; subst.
      constructor; [apply no_initial_file_setEnabled in Hh|]; assumption. }
  intros cls a' H Hn. rewrite construct_eq in H. cbv zeta in H.
  cbn [arguments name newline value required] in H.
  destruct cls.
  all: try (destruct (build_widgets_from KWT None l) as [l'|] eqn:E;
            [|discriminate]; injection H as <-;
            rewrite subtree_eq in Hn; inversion Hn as [|? ? Hh Ht]; subst;
            cbn [arguments set_arguments] in Ht;
            rewrite reset_argument_eq;
            cbn [widget arguments set_arguments set_widget value required
                 name form use comment newline readonly] in *).
  all: try (rewrite (Hb _ _ E Ht); reflexivity).
  all: try reflexivity.
  - destruct (build_alternatives KWT true l) as [l'|] eqn:E; [|discriminate].
    injection H as <-. rewrite subtree_eq in Hn.
    inversion Hn as [|? ? Hh Ht]; subst. cbn [arguments set_arguments] in Ht.
    rewrite reset_argument_eq.
    cbn [widget arguments set_arguments set_widget].
    rewrite (He _ _ E Ht). reflexivity.
  - destruct (build_alternatives KWT true l) as [l'|] eqn:E; [|discriminate].
    injection H as <-. rewrite subtree_eq in Hn.
    inversion Hn as [|? ? Hh Ht]; subst. cbn [arguments set_arguments] in Ht.
    rewrite reset_argument_eq.
    cbn [widget arguments set_arguments set_widget].
    rewrite (He _ _ E Ht). reflexivity.
  - rewrite (setCurrentIndex_first _ (first_is_current_Combo_items KWT _)).
    reflexivity.
  - unfold no_initial_file, set_arguments, set_widget in Hh.
    cbn [widget value] in Hh. subst vl. reflexivity.
Qed.

Lemma reset_of_a_fresh_session : forall KWT item item',
  new_session KWT item = Some item' ->
  Forall no_initial_file (nodes (get_arguments item')) ->
  reset (get_arguments item') = get_arguments item'.
Proof.
  intros KWT item item' H. unfold new_session, build_widgets in H.
  destruct (build_widgets_from KWT None (get_arguments item)) as [l'|] eqn:E;
    [|discriminate].
  injection H as <-. cbn [get_arguments].
  revert E. generalize (@None string). generalize (get_arguments item).
  intros l; revert l'. induction l as [|x r IH]; intros l' fv H Hn;
    simpl in H.
  - injection H as <-. reflexivity.
  - destruct (select_form fv x); [|discriminate].
    destruct (eval s); [|discriminate].
    destruct (construct KWT w x) eqn:Ex; [|discriminate].
    destruct (build_widgets_from KWT _ r) eqn:Er; [|discriminate].
    injection H as <-. rewrite nodes_cons in Hn.
    apply Forall_app in Hn. destruct Hn as [H1 H2].
    rewrite reset_cons, (construct_reset _ _ _ _ Ex H1), (IH _ _ Er H2).
    reflexivity.
Qed.

(** X5: on a freshly created session in which no file selector has an
    initial value, [reset] changes nothing. *)
Theorem reset_keeps_a_fresh_session : forall KWT item item',
  new_session KWT item = Some item' ->
  Forall no_initial_file (nodes (get_arguments item')) ->
  reset (get_arguments item') = get_arguments item'.
Proof. exact reset_of_a_fresh_session. Qed.

(** ** [build_widgets] *)

Lemma erase_eq a :
  erase a = mkArgument (name a) (form a) (use a) (value a) (comment a)
              (required a) (newline a) (readonly a) None
              (map erase (arguments a)).
Proof. destruct a; reflexivity. Qed.

Lemma erase_setEnabled b a : erase (widget_setEnabled b a) = erase a.
Proof. destruct a; reflexivity. Qed.

Lemma construct_erase KWT a : forall cls a',
  construct KWT cls a = Some a' -> erase a' = erase a.
Proof.
  induction a as [nm fm us vl cm rq nl ro w l IH] using Argument_tree_ind.
  assert (Hb : forall fv l', build_widgets_from KWT fv l = Some l' ->
                             map erase l' = map erase l).
  { clear -IH. induction IH as [|x r Hx _ IHr]; intros fv l' H; simpl in H.
    - injection H as <-. reflexivity.
    - destruct (select_form fv x); [|discriminate].
      destruct (eval s); [|discriminate].
      destruct (construct KWT w x) eqn:Ex; [|discriminate].
      destruct (build_widgets_from KWT _ r) eqn:Er; [|discriminate].
      injection H as <-. cbn [map]. rewrite (Hx _ _ Ex), (IHr _ _ Er).
      reflexivity. }
  assert (He : forall b l', build_alternatives KWT b l = Some l' ->
                            map erase l' = map erase l).
  { clear -IH. induction IH as [|x r Hx _ IHr]; intros b l' H; simpl in H.
    - injection H as <-. reflexivity.
    - destruct (select_form None x); [|discriminate].
      destruct (eval s); [|discriminate].
      destruct (construct KWT w x) eqn:Ex; [|discriminate].
      destruct (build_alternatives KWT false r) eqn:Er; [|discriminate].
      injection H as <-. cbn [map].
      rewrite erase_setEnabled, (Hx _ _ Ex), (IHr _ _ Er). reflexivity. }
  intros cls a' H. rewrite construct_eq in H. cbv zeta in H.
  cbn [arguments] in H.
  destruct cls.
  all: try (destruct (build_widgets_from KWT None l) as [l'|] eqn:E;
            [|discriminate]; injection H as <-; rewrite !erase_eq;
            unfold set_arguments, set_widget;
            cbn [name form use value comment required newline readonly
                 arguments];
            rewrite (Hb _ _ E); reflexivity).
  all: destruct (build_alternatives KWT true l) as [l'|] eqn:E;
       [|discriminate]; injection H as <-; rewrite !erase_eq;
       unfold set_arguments, set_widget;
       cbn [name form use value comment required newline readonly arguments];
       rewrite (He _ _ E); reflexivity.
Qed.

Lemma build_widgets_from_erase KWT : forall l fv l',
  build_widgets_from KWT fv l = Some l' -> map erase l' = map erase l.
Proof.
  induction l as [|x r IH]; intros fv l' H; simpl in H.
  - injection H as <-. reflexivity.
  - destruct (select_form fv x); [|discriminate].
    destruct (eval s); [|discriminate].
    destruct (construct KWT w x) eqn:Ex; [|discriminate].
    destruct (build_widgets_from KWT _ r) eqn:Er; [|discriminate].
    injection H as <-. cbn [map].
    rewrite (construct_erase _ _ _ _ Ex), (IH _ _ Er). reflexivity.
Qed.

Lemma build_widgets_from_default_state KWT : forall l fv l',
  build_widgets_from KWT fv l = Some l' -> Forall default_state (nodes l').
Proof.
  induction l as [|x r IH]; intros fv l' H; simpl in H.
  - injection H as <-. constructor.
  - destruct (select_form fv x); [|discriminate].
    destruct (eval s); [|discriminate].
    destruct (construct KWT w x) eqn:Ex; [|discriminate].
    destruct (build_widgets_from KWT _ r) eqn:Er; [|discriminate].
    injection H as <-. rewrite nodes_cons. apply Forall_app. split.
    + eapply construct_default_state; eassumption.
    + eapply IH; eassumption.
Qed.

(** X6: [build_widgets] changes nothing in the arguments but their
    widgets, and gives a widget to every argument of the tree, the nested
    ones included. *)
Theorem build_widgets_assigns_the_widgets_only : forall KWT l l',
  build_widgets KWT l = Some l' ->
  map erase l' = map erase l /\
  Forall (fun a => widget a <> None) (nodes l').
Proof.
  intros KWT l l' H. split.
  - eapply build_widgets_from_erase; exact H.
  - eapply Forall_impl; [|eapply build_widgets_from_default_state; exact H].
    intros a Ha. unfold default_state in Ha.
    destruct (widget a); [discriminate|contradiction].
Qed.

Lemma erase_fields a b :
  erase a = erase b ->
  name a = name b /\ form a = form b /\ use a = use b /\ value a = value b /\
  comment a = comment b /\ required a = required b /\
  newline a = newline b /\ readonly a = readonly b /\
  map erase (arguments a) = map erase (arguments b).
Proof.
  rewrite !erase_eq. intros H. injection H. intuition.
Qed.

Lemma select_form_erase fv a b :
  erase a = erase b -> select_form fv a = select_form fv b.
Proof.
  intros H. apply erase_fields in H.
  destruct H as (_ & Hf & Hu & _). unfold select_form. rewrite Hf, Hu.
  reflexivity.
Qed.

(** What a constructor builds depends on the grammar only, not on the
    widgets the arguments had before. *)
Lemma construct_grammar KWT a : forall cls b,
  erase a = erase b -> construct KWT cls a = construct KWT cls b.
Proof.
  induction a as [nm fm us vl cm rq nl ro w l IH] using Argument_tree_ind.
  assert (Hb : forall l2, map erase l = map erase l2 ->
                 forall fv, build_widgets_from KWT fv l
                            = build_widgets_from KWT fv l2).
  { clear -IH. induction IH as [|x r Hx _ IHr]; intros [|y l2] H fv;
      try discriminate; [reflexivity|].
    cbn [map] in H. injection H as Hxy Hr. cbn [build_widgets_from].
    rewrite (select_form_erase _ _ _ Hxy).
    destruct (select_form fv y); [|reflexivity].
    destruct (eval s); [|reflexivity].
    rewrite (Hx _ _ Hxy), (IHr _ Hr). reflexivity. }
  assert (He : forall l2, map erase l = map erase l2 ->
                 forall b, build_alternatives KWT b l
                           = build_alternatives KWT b l2).
  { clear -IH. induction IH as [|x r Hx _ IHr]; intros [|y l2] H b;
      try discriminate; [reflexivity|].
    cbn [map] in H. injection H as Hxy Hr. cbn [build_alternatives].
    rewrite (select_form_erase _ _ _ Hxy).
    destruct (select_form None y); [|reflexivity].
    destruct (eval s); [|reflexivity].
    rewrite (Hx _ _ Hxy), (IHr _ Hr). reflexivity. }
  intros cls b H. destruct b as [nm2 fm2 us2 vl2 cm2 rq2 nl2 ro2 w2 l2].
  pose proof (erase_fields _ _ H) as (H1 & H2 & H3 & H4 & H5 & H6 & H7 & H8 & H9).
  cbn [name form use value comment required newline readonly arguments] in *.
  subst. rewrite !construct_eq. cbv zeta. cbn [arguments].
  rewrite <- (Hb _ H9), <- (He _ H9).
  assert (Hlen : length l = length l2)
    by (rewrite <- (length_map erase l), H9, length_map; reflexivity).
  rewrite <- Hlen.
  destruct cls; reflexivity.
Qed.

Lemma build_widgets_from_grammar KWT : forall l l2 fv,
  map erase l = map erase l2 ->
  build_widgets_from KWT fv l = build_widgets_from KWT fv l2.
Proof.
  induction l as [|x r IH]; intros [|y l2] fv H; try discriminate;
    [reflexivity|].
  cbn [map] in H. injection H as Hxy Hr. cbn [build_widgets_from].
  rewrite (select_form_erase _ _ _ Hxy).
  destruct (select_form fv y); [|reflexivity].
  destruct (eval s); [|reflexivity].
  rewrite (construct_grammar _ _ _ _ Hxy), (IH _ _ Hr). reflexivity.
Qed.

(** X7: the widgets that [build_widgets] assigns depend on the grammar
    only: building the arguments of a session again, whatever state its
    widgets are in, gives the fresh session again. *)
Theorem build_widgets_again : forall KWT l l' h,
  build_widgets KWT l = Some l' ->
  build_widgets KWT (after h l') = Some l'.
Proof.
  intros KWT l l' h H. rewrite <- H. unfold build_widgets.
  apply build_widgets_from_grammar.
  transitivity (map erase l'); [|eapply build_widgets_from_erase; exact H].
  clear H. revert l'. induction h as [|e h IH]; intros l'; [reflexivity|].
  cbn [after fold_left]. change (fold_left _ h ?x) with (after h x).
  rewrite IH. clear IH.
  assert (Hup : forall f, (forall a, erase (f a) = erase a) ->
            forall path l0, map erase (update_at f path l0) = map erase l0).
  { intros f Hf. induction path as [|i p IHp]; intros l0; [reflexivity|].
    destruct p as [|k p].
    - apply (map_update_nth erase f (fun _ => True)); [auto|].
      apply Forall_forall; auto.
    - change (update_at f (i :: k :: p) l0)
        with (update_nth i
                (fun a => set_arguments (update_at f (k :: p) (arguments a)) a)
                l0).
      apply (map_update_nth erase _ (fun _ => True));
        [|apply Forall_forall; auto].
      intros a _. rewrite !erase_eq. unfold set_arguments.
      cbn [name form use value comment required newline readonly arguments].
      rewrite IHp. reflexivity. }
  destruct e; cbn [apply_event]; apply Hup; intros a.
  - unfold click. destruct (widget a) as [[]|] eqn:Hw; try reflexivity.
    destruct (nth j rb true); [reflexivity|].
    rewrite !erase_eq. unfold set_arguments, set_widget.
    cbn [name form use value comment required newline readonly arguments].
    f_equal. generalize 0. generalize rb. 
    induction (arguments a) as [|x r IHr]; intros rb0 n; [reflexivity|].
    cbn [toggle_alternatives map]. rewrite IHr. f_equal.
    destruct rb0 as [|b0 rb0]; [reflexivity|].
    destruct (Bool.eqb b0 (Nat.eqb n j)); [reflexivity|].
    apply erase_setEnabled.
  - destruct a as [nm fm us vl cm rq nl ro [[]|] l0]; reflexivity.
  - destruct a as [nm fm us vl cm rq nl ro [[]|] l0]; reflexivity.
  - destruct a as [nm fm us vl cm rq nl ro [[]|] l0]; reflexivity.
  - destruct a as [nm fm us vl cm rq nl ro [[]|] l0]; reflexivity.
Qed.

(** X8: [build_widgets] fails on a list whose first argument has
    neither [form] nor [use]: the variable [form] is not bound when
    [eval(form)] reads it, and no widget is built, whatever follows. *)
Theorem build_widgets_needs_a_first_form : forall KWT a r,
  use a = "" ->
  form a = "" ->
  build_widgets KWT (a :: r) = None.
Proof.
  intros KWT a r Hu Hf. unfold build_widgets. cbn [build_widgets_from].
  unfold select_form. rewrite Hu, Hf. reflexivity.
Qed.

Lemma build_widgets_needs_a_first_form_witness :
  build_widgets []
    [ grammar_argument "B" "" "" "" false false [];
      grammar_argument "A" "Bool" "" "" false false [] ] = None.
Proof. apply build_widgets_needs_a_first_form; reflexivity. Defined.

(** X9: the arguments that follow an argument of class [c] and have
    neither [form] nor [use] are built by the class [c] too: the loop of
    [build_widgets] keeps the class from one iteration to the next. *)
Theorem build_widgets_keeps_the_form : forall KWT f c l,
  eval f = Some c ->
  Forall (fun a => form a = "" /\ use a = "") l ->
  build_widgets_from KWT (Some f) l = construct_all KWT c l.
Proof.
  intros KWT f c l Hc H. induction H as [|x r [Hf Hu] _ IH]; [reflexivity|].
  cbn [build_widgets_from construct_all]. unfold select_form.
  rewrite Hf, Hu. cbn [String.eqb negb]. rewrite Hc.
  destruct (construct KWT c x); [|reflexivity].
  unfold select_form in IH. rewrite IH. reflexivity.
Qed.

Lemma build_widgets_keeps_the_form_witness :
  build_widgets_from [] (Some "Bool")
    [grammar_argument "B" "" "" "" false false []]
  = construct_all [] cls_Bool [grammar_argument "B" "" "" "" false false []].
Proof.
  apply build_widgets_keeps_the_form; [reflexivity|].
  repeat constructor.
Defined.

(** X10: an argument with a [use] is shown by a [Combo], whatever its
    [form] says, and the combo box holds the items of [Combo.__init__]. *)
Theorem use_makes_a_Combo : forall KWT fv a r l',
  use a <> "" ->
  build_widgets_from KWT fv (a :: r) = Some l' ->
  option_map widget (hd_error l')
  = Some (Some (Combo (ArgumentWidget_init a) (Combo_items KWT a))).
Proof.
  intros KWT fv a r l' Hu H. cbn [build_widgets_from] in H.
  assert (Hs : select_form fv a = Some "Combo").
  { unfold select_form. destruct (String.eqb_spec (use a) "");
      [contradiction|reflexivity]. }
  assert (He : eval "Combo" = Some cls_Combo) by reflexivity.
  rewrite Hs, He in H.
  destruct (construct KWT cls_Combo a) as [a'|] eqn:Ea; [|discriminate].
  rewrite construct_eq in Ea. cbv zeta in Ea.
  destruct (build_widgets_from KWT None (arguments a)); [|discriminate].
  injection Ea as <-.
  destruct (build_widgets_from KWT (Some "Combo") r); [|discriminate].
  injection H as <-. reflexivity.
Qed.

Lemma use_makes_a_Combo_witness :
  match build_widgets [] [SURFACE_as_Line] with
  | Some l' =>
      option_map widget (hd_error l')
      = Some (Some (Combo (ArgumentWidget_init SURFACE_as_Line)
                      (Combo_items [] SURFACE_as_Line)))
  | None => False
  end.
Proof.
  destruct (build_widgets [] [SURFACE_as_Line]) as [l'|] eqn:E.
  - apply (use_makes_a_Combo [] None SURFACE_as_Line [] l');
      [discriminate|exact E].
  - vm_compute in E. discriminate.
Defined.

(** ** [accept] *)

Lemma first_unfilled_app_l msg l r :
  first_unfilled msg l -> first_unfilled msg (l ++ r).
Proof.
  intros (l1 & p & l2 & -> & H1 & H2).
  exists l1, p, (l2 ++ r)%list. rewrite <- app_assoc. auto.
Qed.

Lemma first_unfilled_app_r msg l r :
  Forall filled l -> first_unfilled msg r -> first_unfilled msg (l ++ r).
Proof.
  intros Hl (l1 & p & l2 & -> & H1 & H2).
  exists (l ++ l1)%list, p, l2. rewrite <- app_assoc.
  repeat split; auto. apply Forall_app; auto.
Qed.

Lemma accept_arguments_first l :
  Forall accept_first l ->
  forall pe shown s b,
    accept_arguments pe l true shown = Some (s, b) ->
    exists m, s = (shown ++ m)%list /\
      match m with
      | [] => True
      | msg :: _ => first_unfilled msg (visits pe l)
      end.
Proof.
  induction 1 as [|x r Hx _ IH]; intros pe shown s b H; simpl in H.
  - injection H as <- <-. exists []. rewrite app_nil_r. auto.
  - destruct (accept_argument pe x true) as [[m1 r1]|] eqn:E; [|discriminate].
    pose proof (Hx _ _ _ E) as Hfirst.
    destruct (accept_argument_sound x _ _ _ _ E) as (Ht & Hf & Hl & _).
    rewrite visits_cons.
    destruct r1 as [b1|ok'].
    + injection H as <- <-. exists m1. split; [reflexivity|].
      destruct m1; [exact I|]. apply first_unfilled_app_l. exact Hfirst.
    + destruct m1 as [|msg m1].
      * assert (ok' = true).
        { destruct ok'; [reflexivity|].
          destruct Hf as [Hf|Hf]; [discriminate|discriminate|congruence]. }
        subst ok'. destruct (Ht eq_refl) as (_ & _ & Hfilled).
        rewrite app_nil_r in H.
        destruct (IH _ _ _ _ H) as (m & -> & Hm).
        exists m. split; [reflexivity|].
        destruct m; [exact I|]. apply first_unfilled_app_r; assumption.
      * assert (Hs : Forall accept_sound r)
          by (apply Forall_forall; intros; apply accept_argument_sound).
        destruct (accept_arguments_sound _ Hs _ _ _ _ _ H)
          as (m2 & -> & _).
        exists ((msg :: m1) ++ m2)%list. rewrite app_assoc.
        split; [reflexivity|]. apply first_unfilled_app_l. exact Hfirst.
Qed.

Lemma accept_argument_first a : accept_first a.
Proof.
  induction a as [nm fm us vl cm rq nl ro w l IH] using Argument_tree_ind.
  intros pe m r H. rewrite accept_argument_eq in H. rewrite visit_eq.
  destruct (check_required pe _) as [[msg|]|] eqn:Ec; [| |discriminate].
  - injection H as <- <-.
    eexists [], _, _. split; [reflexivity|].
    split; [constructor|exact Ec].
  - cbn [arguments] in *.
    destruct (accept_arguments _ _ true []) as [[s b]|] eqn:Ea;
      [|discriminate].
    injection H as <- <-.
    destruct (accept_arguments_first _ IH _ _ _ _ Ea) as (m & -> & Hm).
    cbn [fst app]. destruct m as [|msg m]; [exact I|].
    apply (first_unfilled_app_r msg [_]); [|exact Hm].
    constructor; [exact Ec|constructor].
Qed.

(** X11: the first warning that [accept] shows is the one for the first
    argument, in document order, whose required widget returns an empty
    text; every check before it has passed. *)
Theorem accept_warns_about_the_first_empty_field : forall item msg rest b,
  accept item = Some (msg :: rest, b) ->
  first_unfilled msg (visits true (get_arguments item)).
Proof.
  intros item msg rest b H. unfold accept in H.
  assert (Hf : Forall accept_first (get_arguments item))
    by (apply Forall_forall; intros; apply accept_argument_first).
  destruct (accept_arguments_first _ Hf _ _ _ _ H) as (m & Hm & Hfirst).
  cbn [app] in Hm. subst m. exact Hfirst.
Qed.

(** X12: when [accept] accepts the dialog, every required leaf other
    than a file selector is enabled, is not under a disabled or unchecked
    group, and holds a value (a required check box: is checked). *)
Theorem accepted_means_required_leaves_are_filled : forall item shown,
  accept item = Some (shown, true) ->
  Forall required_leaf_is_filled (visits true (get_arguments item)).
Proof.
  intros item shown H. unfold accept in H.
  assert (Hs : Forall accept_sound (get_arguments item))
    by (apply Forall_forall; intros; apply accept_argument_sound).
  destruct (accept_arguments_sound _ Hs _ _ _ _ _ H) as (m & _ & Ht & _).
  destruct (Ht eq_refl) as (_ & _ & Hf).
  eapply Forall_impl; [|exact Hf].
  intros [pe a] Hp w Hw Hr Hsel. cbn [fst snd] in *.
  eapply check_required_filled; eassumption.
Qed.

(** ** [ok] *)

Lemma split_not_nil c s : Py.split c s <> [].
Proof.
  destruct s as [|d s]; simpl; [discriminate|].
  destruct (Ascii.eqb d c); [discriminate|].
  destruct (Py.split c s); discriminate.
Qed.

Lemma join_cons c x y r :
  Py.join c (x :: y :: r) = x ++ String c (Py.join c (y :: r)).
Proof. reflexivity. Qed.

Lemma join_split c s : Py.join c (Py.split c s) = s.
Proof.
  induction s as [|d s IH]; [reflexivity|]. cbn [Py.split].
  destruct (Ascii.eqb_spec d c) as [->|Hd].
  - destruct (Py.split c s) as [|p ps] eqn:E;
      [exfalso; eapply split_not_nil; eassumption|].
    rewrite join_cons, IH. reflexivity.
  - destruct (Py.split c s) as [|p ps] eqn:E;
      [exfalso; eapply split_not_nil; eassumption|].
    destruct ps as [|q ps].
    + cbn [Py.join] in *. rewrite IH. reflexivity.
    + rewrite join_cons in *. rewrite <- IH. reflexivity.
Qed.

Lemma split_pieces c s : Forall (fun l => Py.contains c l = false) (Py.split c s).
Proof.
  induction s as [|d s IH]; [repeat constructor|]. cbn [Py.split].
  destruct (Ascii.eqb_spec d c) as [->|Hd].
  - constructor; [reflexivity|assumption].
  - destruct (Py.split c s) as [|p ps]; [repeat constructor|].
    + cbn [Py.contains]. rewrite orb_false_r.
      apply Ascii.eqb_neq. congruence.
    + inversion IH; subst. constructor; [|assumption].
      cbn [Py.contains]. apply orb_false_iff. split; [|assumption].
      apply Ascii.eqb_neq. congruence.
Qed.

(** X13: [ok] returns at least one line, no line holds a line break, and
    the lines joined by line breaks are the text of the text edit without
    the white space at its two ends: nothing else is lost. *)
Theorem ok_keeps_the_stripped_text : forall T,
  ok T <> [] /\
  Forall (fun l => Py.contains Py.LF l = false) (ok T) /\
  Py.join Py.LF (ok T) = Py.strip T.
Proof.
  intros T. unfold ok. split; [apply split_not_nil|].
  split; [apply split_pieces|apply join_split].
Qed.

Lemma split_single c s : Py.split c s = [""] <-> s = "".
Proof.
  split; [|intros ->; reflexivity].
  destruct s as [|d s]; [reflexivity|]. cbn [Py.split].
  destruct (Ascii.eqb d c).
  - intros H. injection H as H. exfalso. eapply split_not_nil; eassumption.
  - destruct (Py.split c s); discriminate.
Qed.

Lemma lstrip_empty s : Py.lstrip s = "" <-> all_space s = true.
Proof.
  induction s as [|c s IH]; [split; reflexivity|]. cbn [Py.lstrip all_space].
  destruct (Py.isspace c); [exact IH|]. split; discriminate.
Qed.

Lemma rstrip_empty s : Py.rstrip s = "" <-> all_space s = true.
Proof.
  induction s as [|c s IH]; [split; reflexivity|]. cbn [Py.rstrip all_space].
  destruct (Py.rstrip s) eqn:E.
  - destruct IH as [IH _]. rewrite (IH eq_refl), andb_true_r.
    destruct (Py.isspace c); split; try reflexivity; discriminate.
  - split; [discriminate|]. intros H. apply andb_true_iff in H.
    destruct H as [_ H]. apply IH in H. discriminate.
Qed.

Lemma all_space_lstrip s : all_space (Py.lstrip s) = all_space s.
Proof.
  induction s as [|c s IH]; [reflexivity|]. cbn [Py.lstrip all_space].
  destruct (Py.isspace c) eqn:E; [exact IH|].
  cbn [all_space]. rewrite E. reflexivity.
Qed.

(** X14: [ok] returns the single empty line exactly when the text edit
    holds nothing but white space, the empty text included; it never
    returns an empty list. *)
Theorem ok_of_a_blank_text : forall T,
  ok T = [""] <-> all_space T = true.
Proof.
  intros T. unfold ok, Py.strip.
  rewrite split_single, rstrip_empty, all_space_lstrip. reflexivity.
Qed.

(** *** The first line *)

Lemma append_value_appends T v : exists s, append_value T v = T ++ s.
Proof. unfold append_value. eauto. Qed.

Lemma string_app_assoc (a b c : string) : (a ++ b) ++ c = a ++ (b ++ c).
Proof. induction a as [|x a IH]; simpl; congruence. Qed.

(** The traversal only appends to the text it receives. *)
Lemma change_argument_appends a : forall pe T T',
  change_argument pe a T = Some T' -> exists s, T' = T ++ s.
Proof.
  induction a as [nm fm us vl cm rq nl ro w l IH] using Argument_tree_ind.
  intros pe T T' H. rewrite change_argument_eq in H.
  cbn [widget arguments] in H.
  destruct w as [w|]; [|injection H as <-; exists ""; clear;
                         induction T; simpl; congruence].
  destruct (if isEnabled pe w then text (isEnabled pe w) w else Some "")
    as [v|]; [|discriminate].
  destruct (append_value_appends T v) as [s0 Hs0]. rewrite Hs0 in H.
  revert H. generalize (children_enabled pe w). generalize s0. clear -IH.
  induction IH as [|x r Hx _ IHr]; intros s0 pe H; simpl in H.
  - injection H as <-. eauto.
  - destruct (change_argument pe x (T ++ s0)) as [T1|] eqn:E; [|discriminate].
    destruct (Hx _ _ _ E) as [s1 ->]. rewrite string_app_assoc in H.
    eapply IHr; eassumption.
Qed.

Lemma change_arguments_appends l : forall pe T T',
  change_arguments pe l T = Some T' -> exists s, T' = T ++ s.
Proof.
  induction l as [|x r IH]; intros pe T T' H; simpl in H.
  - injection H as <-. exists "". clear. induction T; simpl; congruence.
  - destruct (change_argument pe x T) as [T1|] eqn:E; [|discriminate].
    destruct (change_argument_appends _ _ _ _ E) as [s1 ->].
    destruct (IH _ _ _ H) as [s2 ->]. rewrite string_app_assoc. eauto.
Qed.

Lemma lstrip_no_space a s :
  a <> "" -> no_space a = true -> Py.lstrip (a ++ s) = a ++ s.
Proof.
  destruct a as [|c a]; [congruence|]. intros _ H. cbn [no_space] in H.
  apply andb_true_iff in H. destruct H as [H _].
  apply negb_true_iff in H. cbn [append Py.lstrip]. rewrite H. reflexivity.
Qed.

Lemma rstrip_no_space a : forall s,
  a <> "" -> no_space a = true -> exists s', Py.rstrip (a ++ s) = a ++ s'.
Proof.
  induction a as [|c a IH]; intros s Hne H; [congruence|].
  cbn [no_space] in H. apply andb_true_iff in H. destruct H as [Hc Ha].
  apply negb_true_iff in Hc. cbn [append Py.rstrip].
  destruct a as [|d a].
  - cbn [append]. destruct (Py.rstrip s) as [|e r].
    + rewrite Hc. exists "". reflexivity.
    + exists (String e r). reflexivity.
  - destruct (IH s) as [s' Hs]; [discriminate|assumption|].
    rewrite Hs. cbn [append]. exists s'. reflexivity.
Qed.

Lemma no_space_no_break a : no_space a = true -> Py.contains Py.LF a = false.
Proof.
  induction a as [|c a IH]; [reflexivity|]. cbn [no_space Py.contains].
  intros H. apply andb_true_iff in H. destruct H as [Hc Ha].
  rewrite (IH Ha), orb_false_r.
  destruct (Ascii.eqb_spec Py.LF c) as [<-|]; [|reflexivity].
  vm_compute in Hc. discriminate.
Qed.

Lemma split_first_piece c a : forall s,
  Py.contains c a = false ->
  exists p, hd "" (Py.split c (a ++ s)) = a ++ p.
Proof.
  induction a as [|d a IH]; intros s H.
  - exists (hd "" (Py.split c s)). reflexivity.
  - cbn [Py.contains] in H. apply orb_false_iff in H. destruct H as [Hd Ha].
    cbn [append Py.split]. rewrite Ascii.eqb_sym, Hd.
    destruct (IH s Ha) as [p Hp].
    destruct (Py.split c (a ++ s)) as [|q qs] eqn:E;
      [exfalso; eapply split_not_nil; eassumption|].
    cbn [hd] in *. subst q. exists p. reflexivity.
Qed.

(** X15: for a keyword whose name is not empty and holds no white space,
    the first of the lines that [ok] returns after [change] begins with
    the name of the keyword. *)
Theorem first_line_begins_with_the_keyword : forall item before T,
  itype item = KEYWORD ->
  item_name item <> "" ->
  no_space (item_name item) = true ->
  change item [] false before = Some T ->
  Py.startswith (hd "" (ok T)) (item_name item) = true.
Proof.
  intros item before T Hk Hne Hns H. rewrite change_top, Hk in H.
  destruct (change_arguments_appends _ _ _ _ H) as [s ->].
  unfold ok, Py.strip. rewrite (lstrip_no_space _ _ Hne Hns).
  destruct (rstrip_no_space _ s Hne Hns) as [s' ->].
  destruct (split_first_piece Py.LF _ s' (no_space_no_break _ Hns)) as [p ->].
  apply startswith_app.
Qed.

Lemma first_line_begins_with_the_keyword_witness :
  Py.startswith
    (hd "" (ok "*CONSTRAINT, NAME=C1, TYPE=DISTRIBUTING")) "*CONSTRAINT" = true.
Proof.
  apply (first_line_begins_with_the_keyword (CONSTRAINT_session "7") "");
    try reflexivity. discriminate.
Defined.

(** ** The help page and the icon of a keyword *)

(** X16: the page that the dialog of a keyword, or of one of its
    implementations, opens as help is one of the files that
    [regenerate_documentation] writes for the keywords: the two modules
    compute the same file name. *)
Theorem help_page_is_a_regenerated_page :
  forall os_path_join doc keywords kw ITEM parent_name,
    In kw keywords ->
    match itype ITEM with
    | KEYWORD => item_name ITEM = item_name kw
    | IMPLEMENTATION => parent_name = item_name kw
    end ->
    In (get_help_url os_path_join doc ITEM parent_name)
       (map snd (regenerate_documentation os_path_join doc keywords)).
Proof.
  intros join doc keywords kw ITEM parent Hin Hname.
  unfold regenerate_documentation. rewrite map_map. cbn [snd].
  apply in_map_iff. exists kw. split; [|assumption].
  unfold get_help_url. destruct (itype ITEM); rewrite Hname; reflexivity.
Qed.

Lemma help_page_is_a_regenerated_page_witness :
  In (get_help_url Py.path_join "doc" CONSTRAINT "")
     (map snd (regenerate_documentation Py.path_join "doc" [NODE; CONSTRAINT])).
Proof.
  apply (help_page_is_a_regenerated_page _ _ _ CONSTRAINT);
    [right; left; reflexivity|reflexivity].
Defined.

Lemma length_sub_space_hyphen s :
  String.length (Py.sub_space_hyphen s) = String.length s.
Proof. induction s as [|c s IH]; simpl; congruence. Qed.

Lemma length_slice_from n : forall s,
  String.length (Py.slice_from n s) = String.length s - n.
Proof.
  induction n as [|n IH]; intros s; [simpl; lia|].
  destruct s as [|c s]; [reflexivity|]. cbn [Py.slice_from String.length].
  rewrite IH. lia.
Qed.

Lemma sub_space_hyphen_clean s :
  Py.contains " " (Py.sub_space_hyphen s) = false /\
  Py.contains "-" (Py.sub_space_hyphen s) = false.
Proof.
  induction s as [|c s [IH1 IH2]]; [split; reflexivity|].
  cbn [Py.sub_space_hyphen Py.contains]. rewrite IH1, IH2, !orb_false_r.
  destruct (Ascii.eqb_spec c " ") as [->|H1]; [split; reflexivity|].
  destruct (Ascii.eqb_spec c "-") as [->|H2]; [split; reflexivity|].
  cbn [orb]. split; apply Ascii.eqb_neq; congruence.
Qed.

(** X17: the name of the HTML page of a keyword holds neither a space nor
    a hyphen, and is as long as the name of the keyword without its first
    character. *)
Theorem html_page_name_has_no_space : forall name,
  let page := html_page_name (Py.slice_from 1 name) in
  Py.contains " " page = false /\
  Py.contains "-" page = false /\
  String.length page = String.length name - 1.
Proof.
  intros name page. unfold page, html_page_name.
  destruct (sub_space_hyphen_clean (Py.slice_from 1 name)) as [H1 H2].
  repeat split; try assumption.
  rewrite length_sub_space_hyphen, length_slice_from. reflexivity.
Qed.

Lemma remove_absent c s : Py.contains c s = false -> Py.remove c s = s.
Proof.
  induction s as [|d s IH]; [reflexivity|]. cbn [Py.contains Py.remove].
  intros H. apply orb_false_iff in H. destruct H as [H1 H2].
  rewrite Ascii.eqb_sym, H1, (IH H2). reflexivity.
Qed.

Lemma replace_app c d a b :
  Py.replace c d (a ++ b) = Py.replace c d a ++ Py.replace c d b.
Proof. induction a as [|e a IH]; simpl; congruence. Qed.

Lemma lower_app a b : Py.lower (a ++ b) = Py.lower a ++ Py.lower b.
Proof. induction a as [|e a IH]; simpl; congruence. Qed.

Lemma replace_replace s :
  Py.replace "-" "_" (Py.replace " " "_" s) = Py.sub_space_hyphen s.
Proof.
  induction s as [|c s IH]; [reflexivity|].
  cbn [Py.replace Py.sub_space_hyphen]. rewrite IH. f_equal.
  destruct (Ascii.eqb_spec c " ") as [->|H1]; [reflexivity|].
  reflexivity.
Qed.

(** X18: for a keyword whose name is a star followed by a name without
    star, the window icon is the file [icon_] followed by the name of its
    help page in lower case and [.png]. *)
Theorem icon_is_named_after_the_help_page : forall os_path_join img item k,
  item_name item = String "*" k ->
  Py.contains "*" k = false ->
  icon_path os_path_join img item
  = os_path_join img
      ("icon_" ++ Py.lower (html_page_name (Py.slice_from 1 (item_name item)))
       ++ ".png").
Proof.
  intros join img item k Hname Hk. unfold icon_path, icon_name, html_page_name.
  rewrite Hname. cbn [Py.remove Py.slice_from].
  change (Ascii.eqb "*" "*") with true. cbv iota.
  rewrite (remove_absent _ _ Hk), replace_replace.
  assert (H : forall a, Py.sub_space_hyphen (a ++ ".png")
                        = Py.sub_space_hyphen a ++ ".png")
    by (induction a as [|e a IH]; simpl; congruence).
  rewrite H, lower_app. reflexivity.
Qed.

Lemma icon_is_named_after_the_help_page_witness :
  icon_path Py.path_join "img" CONSTRAINT = "img/icon_constraint.png".
Proof.
  rewrite (icon_is_named_after_the_help_page _ _ _ "CONSTRAINT");
    reflexivity.
Defined.

(** ** Widgets in a fresh dialog *)

Lemma ArgumentWidget_text_written a ct :
  written_value ct ->
  ArgumentWidget_text true (ArgumentWidget_init a) ct <> "".
Proof.
  intros [Hne Hp]. unfold ArgumentWidget_text, ArgumentWidget_init.
  cbn [w_enabled self_newline self_name andb negb]. rewrite Hp.
  destruct (String.eqb_spec ct ""); [contradiction|]. cbn [negb andb].
  destruct (negb (name a =? "")), (newline a); discriminate.
Qed.

(** X19: a combo box without cross-reference whose values are all
    written (none is empty or a placeholder) cannot be left out of the
    generated text: whichever item is the current one, the text of the
    enabled widget is not empty. *)
Theorem Combo_of_values_is_never_silent : forall KWT a i,
  use a = "" ->
  Forall written_value (Py.split "|"%char (value a)) ->
  i < length (items (Combo_items KWT a)) ->
  text true (Combo (ArgumentWidget_init a)
               (mkQComboBox (items (Combo_items KWT a)) (Z.of_nat i)))
  <> Some "".
Proof.
  intros KWT a i Hu Hv Hi. cbn [text]. intros H. injection H as H.
  revert H. apply ArgumentWidget_text_written.
  unfold currentText. cbn [currentIndex items].
  destruct (Z.ltb_spec (Z.of_nat i) 0) as [Hlt|_]; [lia|].
  rewrite Nat2Z.id.
  assert (Hitems : items (Combo_items KWT a)
                   = if value a =? "" then []
                     else Py.split "|"%char (value a)).
  { unfold Combo_items. rewrite Hu. cbn [String.eqb negb].
    destruct (value a =? ""); cbn [negb]; [reflexivity|].
    rewrite items_addItems. reflexivity. }
  rewrite Hitems in *. destruct (value a =? ""); [simpl in Hi; lia|].
  rewrite Forall_forall in Hv. apply Hv. apply nth_In. assumption.
Qed.

Lemma Combo_of_values_is_never_silent_witness :
  text true
    (Combo (ArgumentWidget_init
              (grammar_argument "TYPE" "Combo" "" "DISTRIBUTING|KINEMATIC"
                 false false []))
       (mkQComboBox ["DISTRIBUTING"; "KINEMATIC"] 1))
  <> Some "".
Proof.
  apply (Combo_of_values_is_never_silent []
           (grammar_argument "TYPE" "Combo" "" "DISTRIBUTING|KINEMATIC"
              false false []) 1).
  - reflexivity.
  - repeat constructor; discriminate.
  - simpl. lia.
Defined.

Lemma split_absent c s : Py.contains c s = false -> Py.split c s = [s].
Proof.
  induction s as [|d s IH]; [reflexivity|]. cbn [Py.contains Py.split].
  intros H. apply orb_false_iff in H. destruct H as [H1 H2].
  rewrite Ascii.eqb_sym, H1, (IH H2). reflexivity.
Qed.

(** X20: the check box of an argument with a name, when it is enabled and
    checked, writes a comma, a space and the name its label shows: the name
    itself when it holds no [|], else the alternative chosen in the combo
    box of the label, which is the first one in a fresh dialog. *)
Theorem Bool_writes_the_name_its_label_shows : forall a i,
  name a <> "" ->
  i < length (Py.split "|"%char (name a)) ->
  text true (Bool (ArgumentWidget_init a) true)
  = Some (", " ++ hd "" (Py.split "|"%char (name a))) /\
  text true
    (Bool (label_setCurrentIndex (Z.of_nat i) (ArgumentWidget_init a)) true)
  = Some (", " ++ nth i (Py.split "|"%char (name a)) "").
Proof.
  intros a i Hn Hi. cbn [text].
  unfold Bool_text, label_setCurrentIndex, ArgumentWidget_init.
  cbn [w_enabled self_label andb].
  destruct (Py.contains "|" (name a)) eqn:E.
  - cbn [set_label w_enabled self_label andb label_text].
    unfold currentText, addItems, new_QComboBox.
    destruct (Py.split "|" (name a)) as [|p ps] eqn:Es;
      [exfalso; eapply split_not_nil; eassumption|].
    cbn [items currentIndex app].
    split; [reflexivity|].
    destruct (Z.ltb_spec (Z.of_nat i) 0); [lia|].
    rewrite Nat2Z.id. reflexivity.
  - destruct (String.eqb_spec (name a) ""); [contradiction|].
    cbn [negb label_text w_enabled self_label andb].
    rewrite (split_absent _ _ E) in *. cbn [length] in Hi.
    assert (i = 0) by lia. subst i. split; reflexivity.
Qed.

Lemma Bool_writes_the_name_its_label_shows_witness :
  text true
    (Bool (ArgumentWidget_init
             (grammar_argument "FREQUENCY|TIME POINTS" "Bool" "" "" false
                false [])) true)
  = Some ", FREQUENCY" /\
  text true
    (Bool (label_setCurrentIndex 1
             (ArgumentWidget_init
                (grammar_argument "FREQUENCY|TIME POINTS" "Bool" "" "" false
                   false []))) true)
  = Some ", TIME POINTS".
Proof.
  apply (Bool_writes_the_name_its_label_shows
           (grammar_argument "FREQUENCY|TIME POINTS" "Bool" "" "" false
              false []) 1).
  - discriminate.
  - simpl. lia.
Defined.

(** ** Witnesses on the example sessions *)

Lemma leaf_off_silent_witness :
  change_argument true PENALTY_off "*CONSTRAINT"
  = change_arguments true (arguments PENALTY_off) "*CONSTRAINT".
Proof.
  apply (leaf_off_silent true PENALTY_off
           (Line (mkArgumentWidget "PENALTY" false true false
                    (Some (QLabel "PENALTY")) false) "7")); reflexivity.
Defined.

Lemma build_widgets_assigns_the_widgets_only_witness :
  match build_widgets [] (get_arguments NESTED_OR) with
  | Some l' =>
      map erase l' = map erase (get_arguments NESTED_OR) /\
      Forall (fun a => widget a <> None) (nodes l')
  | None => False
  end.
Proof.
  destruct (build_widgets [] (get_arguments NESTED_OR)) as [l'|] eqn:E.
  - apply (build_widgets_assigns_the_widgets_only [] _ _ E).
  - vm_compute in E. discriminate.
Defined.

Lemma build_widgets_again_witness :
  match build_widgets [] (get_arguments NESTED_OR) with
  | Some l' =>
      build_widgets []
        (after [Toggle [0] true; Click [0; 0] 1; Edit [0; 0; 0] "x"] l')
      = Some l'
  | None => False
  end.
Proof.
  destruct (build_widgets [] (get_arguments NESTED_OR)) as [l'|] eqn:E.
  - apply (build_widgets_again [] _ _ _ E).
  - vm_compute in E. discriminate.
Defined.

Lemma reset_undoes_the_edits_witness :
  match build_widgets [] (get_arguments OPTIONAL_WITH_REQUIRED) with
  | Some l' =>
      reset (after [Toggle [0] true; Edit [0; 0] "C1"] l') = reset l'
  | None => False
  end.
Proof.
  destruct (build_widgets [] (get_arguments OPTIONAL_WITH_REQUIRED))
    as [l'|] eqn:E; vm_compute in E; [injection E as <-|discriminate].
  apply reset_undoes_the_edits; [|reflexivity].
  repeat constructor.
Defined.

Lemma reset_keeps_a_fresh_session_witness :
  match new_session [] NESTED_OR with
  | Some item => reset (get_arguments item) = get_arguments item
  | None => False
  end.
Proof.
  destruct (new_session [] NESTED_OR) as [item|] eqn:E.
  - apply (reset_keeps_a_fresh_session [] NESTED_OR item E).
    vm_compute in E. injection E as <-. repeat constructor.
  - vm_compute in E. discriminate.
Defined.

Lemma accept_warns_about_the_first_empty_field_witness :
  match new_session [] TWO_REQUIRED with
  | Some item =>
      first_unfilled "Fill all required fields A"
        (visits true (get_arguments item))
  | None => False
  end.
Proof.
  destruct (new_session [] TWO_REQUIRED) as [item|] eqn:E;
    vm_compute in E; [injection E as <-|discriminate].
  eapply accept_warns_about_the_first_empty_field.
  vm_compute. reflexivity.
Defined.

Lemma accepted_means_required_leaves_are_filled_witness :
  Forall required_leaf_is_filled
    (visits true (get_arguments (CONSTRAINT_session "7"))).
Proof.
  apply (accepted_means_required_leaves_are_filled _ []).
  vm_compute. reflexivity.
Defined.

(** ** The dialog of an implementation *)

Lemma join_app_head c a y r :
  Py.join c ((a ++ String c y) :: r) = a ++ String c (Py.join c (y :: r)).
Proof.
  destruct r as [|z r]; [reflexivity|].
  rewrite !join_cons, string_app_assoc. reflexivity.
Qed.

Lemma fold_append_join r : forall doc,
  doc <> "" ->
  fold_left QTextEdit_append r doc = Py.join Py.LF (doc :: r).
Proof.
  induction r as [|y r IH]; intros doc Hd; [reflexivity|].
  cbn [fold_left]. unfold QTextEdit_append at 2.
  destruct (String.eqb_spec doc ""); [contradiction|].
  rewrite IH; [apply join_app_head|].
  destruct doc; [contradiction|discriminate].
Qed.

Lemma split_join c l :
  l <> [] ->
  Forall (fun x => Py.contains c x = false) l ->
  Py.split c (Py.join c l) = l.
Proof.
  intros Hl H. induction H as [|x r Hx Hr IH]; [contradiction|].
  destruct r as [|y r].
  - cbn [Py.join]. apply split_absent. assumption.
  - rewrite join_cons. specialize (IH ltac:(discriminate)).
    clear Hr Hl. revert Hx. induction x as [|d x IHx]; intros Hx.
    + cbn [append Py.split]. rewrite Ascii.eqb_refl, IH. reflexivity.
    + cbn [Py.contains] in Hx. apply orb_false_iff in Hx.
      destruct Hx as [H1 H2]. cbn [append Py.split].
      rewrite Ascii.eqb_sym, H1, (IHx H2). reflexivity.
Qed.

Lemma lstrip_begins s : begins_without_space s = true -> Py.lstrip s = s.
Proof.
  destruct s as [|c s]; [discriminate|]. cbn [begins_without_space Py.lstrip].
  intros H. apply negb_true_iff in H. rewrite H. reflexivity.
Qed.

Lemma rstrip_ends s : ends_without_space s = true -> Py.rstrip s = s.
Proof.
  induction s as [|c s IH]; [discriminate|].
  cbn [ends_without_space Py.rstrip]. destruct s as [|d s].
  - intros H. apply negb_true_iff in H. cbn [Py.rstrip]. rewrite H.
    reflexivity.
  - intros H. rewrite (IH H). reflexivity.
Qed.

Lemma ends_without_space_app a b :
  ends_without_space b = true -> ends_without_space (a ++ b) = true.
Proof.
  intros H. induction a as [|c a IH]; [assumption|].
  cbn [append ends_without_space].
  destruct (a ++ b) eqn:E; [|assumption].
  destruct a; [cbn [append] in E; subst b|]; discriminate.
Qed.

Lemma ends_without_space_join c l :
  ends_without_space (last l "") = true ->
  ends_without_space (Py.join c l) = true.
Proof.
  induction l as [|x r IH]; [discriminate|]. destruct r as [|y r].
  - intros H. exact H.
  - intros H. rewrite join_cons.
    apply ends_without_space_app.
    change (ends_without_space (String c (Py.join c (y :: r))) = true).
    specialize (IH H). cbn [ends_without_space].
    destruct (Py.join c (y :: r)); [discriminate|assumption].
Qed.

Lemma begins_without_space_app a b :
  begins_without_space a = true -> begins_without_space (a ++ b) = true.
Proof. destruct a; [discriminate|auto]. Qed.

Lemma fold_append_plain appended r : forall doc,
  Forall (fun l => plain l = true) r ->
  fold_left (TEXTEDIT_append appended) r doc = fold_left QTextEdit_append r doc.
Proof.
  induction r as [|y r IH]; intros doc H; [reflexivity|].
  inversion H as [|? ? Hy Hr]; subst. cbn [fold_left].
  unfold TEXTEDIT_append at 2. rewrite Hy. apply IH. assumption.
Qed.

(** X22: the dialog of an implementation whose INP code begins and ends
    with a character that is not white space, and whose lines are plain
    (none of ['<'], ['&'], carriage return, no-break space, so that the text
    edit keeps them as they are) and hold no line break, returns this INP
    code from [ok], line by line, when nothing is edited. *)
Theorem implementation_round_trip : forall appended first rest,
  let inp_code := first :: rest in
  begins_without_space first = true ->
  ends_without_space (last inp_code "") = true ->
  Forall (fun l => plain l = true) inp_code ->
  Forall (fun l => Py.contains Py.LF l = false) inp_code ->
  ok (show_inp_code appended inp_code) = inp_code.
Proof.
  intros appended first rest inp_code Hb He Hp Hl.
  unfold show_inp_code, ok, Py.strip.
  subst inp_code. rewrite fold_append_plain by assumption.
  cbn [fold_left]. unfold QTextEdit_append at 2.
  cbn [String.eqb]. rewrite fold_append_join
    by (destruct first; discriminate).
  rewrite lstrip_begins.
  - rewrite rstrip_ends by (apply ends_without_space_join; assumption).
    apply split_join; [discriminate|assumption].
  - destruct rest as [|y r]; [assumption|].
    rewrite join_cons. apply begins_without_space_app. assumption.
Qed.

Lemma implementation_round_trip_witness :
  ok (show_inp_code (fun doc line => doc) ["*NODE"; "1, 0.5, 0"; "2, 1.5, 0"])
  = ["*NODE"; "1, 0.5, 0"; "2, 1.5, 0"].
Proof.
  apply (implementation_round_trip (fun doc line => doc) "*NODE"
           ["1, 0.5, 0"; "2, 1.5, 0"]);
    try reflexivity; repeat constructor.
Defined.

(** ** The button Reset *)

Lemma handle_arguments e d d' :
  handle e d = Some d' ->
  itype (ITEM d') = itype (ITEM d) /\
  item_name (ITEM d') = item_name (ITEM d) /\
  get_arguments (ITEM d') = apply_event e (get_arguments (ITEM d)).
Proof.
  unfold handle. destruct (change _ [] false (TEXTEDIT d)); [|discriminate].
  intros H. injection H as <-. auto.
Qed.

Lemma run_arguments h : forall d d',
  run h d = Some d' ->
  itype (ITEM d') = itype (ITEM d) /\
  item_name (ITEM d') = item_name (ITEM d) /\
  get_arguments (ITEM d') = after h (get_arguments (ITEM d)).
Proof.
  induction h as [|e h IH]; intros d d' H; simpl in H.
  - injection H as <-. auto.
  - destruct (handle e d) as [d1|] eqn:E; [|discriminate].
    destruct (handle_arguments _ _ _ E) as (H1 & H2 & H3).
    destruct (IH _ _ H) as (G1 & G2 & G3).
    rewrite G1, G2, G3, H1, H2, H3. auto.
Qed.

(** X23: in a dialog opened on a keyword whose leaves have no nested
    arguments and whose file selectors have no initial value, after any
    history made of these events only (a group box or a check box is
    checked or unchecked, the text of a text control is replaced, an item
    of a combo box is chosen) the button Reset brings back the widgets and
    the text the dialog was opened with. *)
Theorem Reset_brings_back_the_opened_dialog : forall KWT item d0 h d,
  open_dialog KWT item = Some d0 ->
  Forall flat_leaf (nodes (get_arguments (ITEM d0))) ->
  Forall no_initial_file (nodes (get_arguments (ITEM d0))) ->
  forallb is_edit h = true ->
  run h d0 = Some d ->
  KeywordDialog_reset d = Some d0.
Proof.
  intros KWT item d0 h d Hopen Hflat Hfile Hh Hrun.
  unfold open_dialog in Hopen.
  destruct (new_session KWT item) as [item'|] eqn:En; [|discriminate].
  destruct (change item' [] false "") as [T0|] eqn:Ec; [|discriminate].
  injection Hopen as <-. cbn [ITEM TEXTEDIT] in *.
  destruct (run_arguments _ _ _ Hrun) as (H1 & H2 & H3).
  cbn [ITEM] in *. unfold KeywordDialog_reset.
  rewrite H1, H2, H3, (reset_after_edits _ _ Hflat Hh).
  rewrite (reset_of_a_fresh_session _ _ _ En Hfile).
  assert (Hi : mkItem (itype item') (item_name item') (get_arguments item')
               = item') by (destruct item'; reflexivity).
  rewrite Hi, (change_ignores_previous_text _ _ ""), Ec. reflexivity.
Qed.

Lemma Reset_brings_back_the_opened_dialog_witness :
  match open_dialog [] OPTIONAL_WITH_REQUIRED with
  | Some d0 =>
      match run [Toggle [0] true; Edit [0; 0] "C1"] d0 with
      | Some d => KeywordDialog_reset d = Some d0
      | None => False
      end
  | None => False
  end.
Proof.
  destruct (open_dialog [] OPTIONAL_WITH_REQUIRED) as [d0|] eqn:E0.
  - destruct (run [Toggle [0] true; Edit [0; 0] "C1"] d0) as [d|] eqn:E1.
    + apply (Reset_brings_back_the_opened_dialog [] _ d0
               [Toggle [0] true; Edit [0; 0] "C1"] d E0);
        [| |reflexivity|exact E1];
        vm_compute in E0; injection E0 as <-; repeat constructor.
    + vm_compute in E0. injection E0 as <-. vm_compute in E1. discriminate.
  - vm_compute in E0. discriminate.
Defined.
